(** * family-visualizations: the scraper (scrapers/scraper.py)

    A shallow embedding of the history scraper of the Apertium family
    visualizer, and the properties of its incremental history merge and
    of its orchestrators.

    Conventions of the embedding.
    - Python [str] values are [string]s; the text handled here (commit
      hashes, ISO dates, repository names, language codes) is ASCII, and
      the character classes of [str.strip] and of the regular expression
      class [\w] are the ASCII ones.
    - A raised Python exception is a value [Raise e] of the type [result];
      [try]/[except] is a [match] on it.
    - A local variable that a loop may leave unassigned is an [option]:
      reading [None] raises [UnboundLocalError].  Python locals survive
      from one loop iteration to the next, so they are threaded through
      the loops.
    - The collaborators that are not code of this file (git, the network,
      the stem counters, the file system, the wiki) are the fields of an
      environment record [Env]; what they raise is theirs to say.
    - JSON values have the shape the scraper itself writes and reads: a
      persisted file that parses is a list of named histories, a package
      has a name and topics, a statistic a kind and a value.
    - Lists that Python shares between variables live in a store and are
      named by their index in it (see [PairState]). *)

From stdpp Require Import base option list sorting strings gmap.
From Stdlib Require Import ZArith Ascii.

Local Open Scope Z_scope.

(** ** Exceptions *)

Inductive exn : Type :=
  | IndexError
  | UnboundLocalError
  | TypeError
  | AttributeError
  | KeyError
  | SystemExit
  | FileNotFoundError
  | JSONDecodeError
  | CalledProcessError
  | ConnectionError
  | Exception (msg : string).

Inductive result (A : Type) : Type :=
  | Ok (a : A)
  | Raise (e : exn).
Arguments Ok {A} a.
Arguments Raise {A} e.

#[global] Instance result_ret : MRet result := fun A a => Ok a.
#[global] Instance result_bind : MBind result := fun A B f m =>
  match m with
  | Ok a => f a
  | Raise e => Raise e
  end.

(** [for x in l: body], where [body] may raise and otherwise yields the
    next values of the variables it assigns. *)
Fixpoint for_each {S A : Type} (body : S → A → result S) (s : S) (l : list A)
  : result S :=
  match l with
  | [] => Ok s
  | x :: l' => s' ← body s x; for_each body s' l'
  end.

(** Reading a local variable. *)
Definition read {A : Type} (v : option A) : result A :=
  match v with
  | Some a => Ok a
  | None => Raise UnboundLocalError
  end.

(** [l[i]] on a Python list. *)
Definition index {A : Type} (l : list A) (i : nat) : result A :=
  match l !! i with
  | Some a => Ok a
  | None => Raise IndexError
  end.

(** [l.pop()]: the list without its last element. *)
Definition pop {A : Type} (l : list A) : result (list A) :=
  match l with
  | [] => Raise IndexError
  | _ => Ok (removelast l)
  end.

(** ** Python string operations *)

Module Str.

(** [s[n:]] *)
Fixpoint drop (n : nat) (s : string) : string :=
  match n, s with
  | O, _ => s
  | S _, EmptyString => EmptyString
  | S n', String _ s' => drop n' s'
  end.

(** [sub in s] *)
Fixpoint contains (sub s : string) : bool :=
  String.prefix sub s ||
  match s with
  | EmptyString => false
  | String _ s' => contains sub s'
  end.

(** [s.split(sep)] for a non-empty [sep]: the text is cut at the
    occurrences of [sep] found from left to right, without overlap.
    [skip] counts the characters of an occurrence still to pass. *)
Fixpoint split_from (sep s : string) (skip : nat) : list string :=
  match s with
  | EmptyString => [EmptyString]
  | String c s' =>
      match skip with
      | S k => split_from sep s' k
      | O =>
          if String.prefix sep s
          then EmptyString :: split_from sep s' (String.length sep - 1)
          else match split_from sep s' 0 with
               | tok :: toks => String c tok :: toks
               | [] => [String c EmptyString]
               end
      end
  end.

Definition split (sep s : string) : list string := split_from sep s 0.

(** [s.replace(old, new)] for a non-empty [old]. *)
Fixpoint replace_from (old new s : string) (skip : nat) : string :=
  match s with
  | EmptyString => EmptyString
  | String c s' =>
      match skip with
      | S k => replace_from old new s' k
      | O =>
          if String.prefix old s
          then new +:+ replace_from old new s' (String.length old - 1)
          else String c (replace_from old new s' 0)
      end
  end.

Definition replace (old new s : string) : string := replace_from old new s 0.

(** The characters removed by [str.strip()]. *)
Definition isspace (c : ascii) : bool :=
  let n := nat_of_ascii c in
  ((9 <=? n) && (n <=? 13) || (28 <=? n) && (n <=? 32))%nat.

Fixpoint lstrip (s : string) : string :=
  match s with
  | EmptyString => EmptyString
  | String c s' => if isspace c then lstrip s' else s
  end.

Fixpoint rstrip (s : string) : string :=
  match s with
  | EmptyString => EmptyString
  | String c s' =>
      match rstrip s' with
      | EmptyString => if isspace c then EmptyString else String c EmptyString
      | t => String c t
      end
  end.

(** [s.strip()] *)
Definition strip (s : string) : string := rstrip (lstrip s).

(** The class [\w] of [re]. *)
Definition isword (c : ascii) : bool :=
  let n := nat_of_ascii c in
  ((48 <=? n) && (n <=? 57) || (65 <=? n) && (n <=? 90)
   || (97 <=? n) && (n <=? 122) || (n =? 95))%nat.

(** What is left of [s] after the longest run of word characters at
    its start. *)
Fixpoint skip_word (s : string) : string :=
  match s with
  | EmptyString => EmptyString
  | String c s' => if isword c then skip_word s' else s
  end.

(** [\w+] at the start of [s]: the rest after the run, if the run is
    not empty.  The run is followed in both patterns of the scraper by
    something no word character matches, so only the longest run can
    lead to a match. *)
Definition word_plus (s : string) : option string :=
  match s with
  | String c s' => if isword c then Some (skip_word s') else None
  | EmptyString => None
  end.

(** [s] without the prefix [p], if it starts with it. *)
Fixpoint literal (p s : string) : option string :=
  match p, s with
  | EmptyString, _ => Some s
  | String a p', String b s' => if Ascii.eqb a b then literal p' s' else None
  | String _ _, EmptyString => None
  end.

(** [PurePath.suffix] of a file name: from its last dot, when that dot
    is neither the first nor the last character. *)
Fixpoint last_dot (s : string) : option string :=
  match s with
  | EmptyString => None
  | String c s' =>
      match last_dot s' with
      | Some t => Some t
      | None => if Ascii.eqb c "." then Some s else None
      end
  end.

Definition suffix (name : string) : string :=
  match name with
  | EmptyString => EmptyString
  | String c rest =>
      match last_dot rest with
      | Some (String d (String e t)) => String d (String e t)
      | _ => EmptyString
      end
  end.

(** [sorted] on strings: insertion by the order of the characters. *)
Fixpoint insert_sorted (x : string) (l : list string) : list string :=
  match l with
  | [] => [x]
  | y :: l' => if String.leb x y then x :: l else y :: insert_sorted x l'
  end.

Definition sorted (l : list string) : list string :=
  foldr insert_sorted [] l.

End Str.

(** ** Data model *)

(** One entry of a history: [{"sha": .., "author": .., "date": .., "stems": ..}]. *)
Record CommitRecord : Type := {
  sha : string;
  author : string;
  date : string;
  stems : Z;
}.

(** [{"name": .., "history": [..]}], an element of a persisted
    per-language file. *)
Record EntityHistory : Type := {
  name : string;
  history : list CommitRecord;
}.

(** An element of the package catalog. *)
Record Package : Type := {
  package_name : string;
  package_topics : list string;
}.

(** An element of the ["stats"] array of the stats service. *)
Record Statistic : Type := {
  stat_kind : string;
  value : Z;
}.

(** What [dixcounter.get_info] returns: the sentinel [-1], or a
    dictionary with a ["stems"] entry. *)
Inductive DixInfo : Type :=
  | DixFailure
  | DixStems (n : Z).

(** An [xml.etree] element: its text and its children. *)
#[warnings="-register-all"]
Inductive Element : Type :=
  | Elem (text : option string) (children : list Element).

Definition text (e : Element) : option string :=
  match e with Elem t _ => t end.

Definition children (e : Element) : list Element :=
  match e with Elem _ c => c end.

(** An element of the list [monoData] returns. *)
Record MonoRecord : Type := {
  lang : string;
  state : string;
  mono_stems : Z;
  mono_location : string;
  contributors : list (string * Z);
}.

(** An element of the list [pairData] returns; ["langs"] lists a Python
    set, in an order Python does not fix. *)
Record PairRecord : Type := {
  langs : gset string;
  pair_location : string;
  pair_stems : Z;
}.

#[global] Instance CommitRecord_eq_dec : EqDecision CommitRecord.
Proof. solve_decision. Defined.

#[global] Instance EntityHistory_eq_dec : EqDecision EntityHistory.
Proof. solve_decision. Defined.

(** ** The collaborators

    Each field answers as the world stands during one run, after
    [prepRepo] has cloned or pulled the repository asked about. *)
Record Env : Type := {
  (** [json.load(open(JSON_DIR.joinpath(file)))] *)
  json_load : string → result (list EntityHistory);
  (** [shutil.copyfile] of the mailmap into the clone of a repository,
      after the [git clone] or [git pull] of [prepRepo] *)
  copy_mailmap : string → result unit;
  (** the names of the files of a directory of [REPOS_DIR] that match a
      glob pattern *)
  glob : string → string → list string;
  (** [subprocess.check_output(["git", "log", "--format=" + format,
      "--name-only", "--follow", file], cwd=repo).decode("utf-8")];
      the flag tells whether [--name-only] is given *)
  git_log : string → bool → string → string → result string;
  (** [requests.get(url).text] *)
  requests_get : string → result string;
  (** [requests.get(url).json()["stats"]] *)
  requests_get_stats : string → result (list Statistic);
  (** [lexccounter.countStems] *)
  countLexcStems : string → result Z;
  (** [dixcounter.get_info] *)
  countDixStems : string → bool → result DixInfo;
  (** the table [.//table[@class='wikitable sortable']] of the page at a
      URL, [None] when [find] finds none *)
  wiki_table : string → result (option Element);
  (** the text of [.mailmap] *)
  read_mailmap : result string;
}.

Definition pairLocations : list string :=
  ["incubator"; "nursery"; "staging"; "trunk"].
Definition langLocations : list string := ["languages"; "incubator"].

(** [word in l] for a list of strings. *)
Definition mem (word : string) (l : list string) : bool :=
  existsb (String.eqb word) l.

(** Removes the apertium- prefix: [word[len("apertium-"):]]. *)
Definition rmPrefix (word : string) : string :=
  Str.drop (String.length "apertium-") word.

(** [re.match(r"apertium-\w+-\w+", s)] *)
Definition match_pair (s : string) : bool :=
  bool_decide (is_Some (
    r ← Str.literal "apertium-" s;
    r ← Str.word_plus r;
    r ← Str.literal "-" r;
    Str.word_plus r)).

(** [re.match(r"apertium-\w+$", s)]; [$] matches at the end of the text
    and before a newline that ends it. *)
Definition match_mono (s : string) : bool :=
  match r ← Str.literal "apertium-" s; Str.word_plus r with
  | Some r => String.eqb r "" || String.eqb r (String "010" "")
  | None => false
  end.

Section Scraper.

Context (env : Env).

(** Adds repo if it doesn't exist, or updates it if does, and copies
    .mailmap to it. *)
Definition prepRepo (repo : string) : result unit :=
  match copy_mailmap env repo with
  | Raise FileNotFoundError =>
      Raise (Exception ("Unable to clone " +:+ repo +:+ ". Please check if "
        +:+ rmPrefix repo
        +:+ " is a valid Apertium language and remove it from the json file if it isn't"))
  | r => r
  end.

(** Returns the extension of the dictionary. *)
Definition fileExt (repo : string) : string :=
  let files := Str.sorted (glob env ("apertium-" +:+ repo)
                 ("apertium-" +:+ repo +:+ "." +:+ repo +:+ ".*")) in
  match List.find (λ file, mem (Str.suffix file) [".lexc"; ".dix"; ".metadix"]) files with
  | Some file => Str.replace "." "" (Str.suffix file)
  | None => "unknown"
  end.

(** The loop that looks an entity up in the persisted file:
    [for data in oldFile: if data["name"] == x: history = data["history"];
    break; history = []].  The variable keeps its value when the file
    lists nothing. *)
Fixpoint find_history (oldFile : list EntityHistory) (x : string)
    (hist : option (list CommitRecord)) : option (list CommitRecord) :=
  match oldFile with
  | [] => hist
  | data :: rest =>
      if String.eqb (name data) x then Some (history data)
      else find_history rest x (Some [])
  end.

(** The output of the walker, cut into lines:
    [.replace("\n\n", "").split("\n")]. *)
Definition commit_lines (raw : string) : list string :=
  Str.split (String "010" "")
    (Str.replace (String "010" (String "010" "")) "" raw).

(** [any(sha == cm["sha"] for cm in history)] *)
Definition seen (h : list CommitRecord) (s : string) : bool :=
  existsb (λ cm, String.eqb s (sha cm)) h.

(** *** The merge loop (lines 106-144 and 204-228)

    The two loops differ only in how the stems of an unseen commit are
    counted: [count sha path] yields [Some stems], or [None] where the
    source logs the failure and [continue]s. *)
Definition mergeCommit (count : string → string → result (option Z))
    (hist : option (list CommitRecord)) (commit : string)
  : result (option (list CommitRecord)) :=
  let data := Str.split "<>" commit in
  data0 ← index data 0;
  data1 ← index data 1;
  data2 ← index data 2;
  h ← read hist;
  if seen h data0 then Ok hist
  else
    data3 ← index data 3;
    counted ← count data0 data3;
    match counted with
    | None => Ok hist
    | Some n =>
        Ok (Some (h ++ [{| sha := data0; author := data1; date := data2;
                           stems := n |}]))
    end.

Definition mergeLoop (count : string → string → result (option Z))
    (hist : option (list CommitRecord)) (commits : list string)
  : result (option (list CommitRecord)) :=
  for_each (mergeCommit count) hist commits.

(** Lines 117-119: where the dictionary of a language is fetched from. *)
Definition monoURL (language sha path : string) : string :=
  "https://raw.githubusercontent.com/apertium/apertium-"
  +:+ language +:+ "/" +:+ sha +:+ "/" +:+ Str.strip path.

(** Lines 215-217: where the dictionary of a pair is fetched from. *)
Definition pairURL (pairName sha path : string) : string :=
  "https://raw.githubusercontent.com/apertium/apertium-"
  +:+ pairName +:+ "/" +:+ sha +:+ "/" +:+ path.

(** Lines 117-141: the stems of the monolingual dictionary at a commit. *)
Definition monoCount (language extension sha path : string)
  : result (option Z) :=
  let fileURL := monoURL language sha path in
  dataFile ← requests_get env fileURL;
  if String.eqb extension "lexc" then
    match countLexcStems env dataFile with
    | Ok n => Ok (Some n)
    | Raise SystemExit => Ok None
    | Raise e => Raise e
    end
  else
    info ← countDixStems env fileURL false;
    match info with
    | DixFailure => Ok None
    | DixStems n => Ok (Some n)
    end.

(** Lines 215-227: the stems of the bilingual dictionary at a commit. *)
Definition pairCount (pairName sha path : string) : result (option Z) :=
  let dixFile := pairURL pairName sha path in
  info ← countDixStems env dixFile true;
  match info with
  | DixFailure => Ok None
  | DixStems n => Ok (Some n)
  end.

(** Lines 77-85: the history recorded for the language. *)
Definition monoLoad (language : string) : result (option (list CommitRecord)) :=
  match json_load env (language +:+ ".json") with
  | Ok oldFile => Ok (find_history oldFile language None)
  | Raise FileNotFoundError | Raise JSONDecodeError => Ok (Some [])
  | Raise e => Raise e
  end.

(** The dictionary file of a language, under the extension found. *)
Definition monoFile (language : string) : string :=
  "apertium-" +:+ language +:+ "." +:+ language +:+ "." +:+ fileExt language.

(** Lines 86-146, from the loaded history on. *)
Definition monoMerge (language : string) (hist : option (list CommitRecord))
  : result EntityHistory :=
  let dirName := "apertium-" +:+ language in
  _ ← prepRepo dirName;
  let extension := fileExt language in
  raw ← git_log env "%H<>%aN<>%aI<>" true (monoFile language) dirName;
  commits ← pop (commit_lines raw);
  hist ← mergeLoop (monoCount language extension) hist commits;
  h ← read hist;
  Ok {| name := language; history := h |}.

(** Returns the history of a monolingual dictionary. *)
Definition monoHistory (language : string) : result EntityHistory :=
  hist ← monoLoad language;
  monoMerge language hist.

(** *** The pair histories (lines 149-231)

    [history] is a variable of the whole function: a package whose
    lookup loop assigns nothing works on the list object of the package
    before it.  The lists live in a store, the variable and the entries
    of [langPackages] hold indices into it. *)
Record PairState : Type := {
  store : list (list CommitRecord);
  history_var : option nat;
  langPackages : list (string * nat);
}.

(** [set(l)] *)
Definition set (l : list string) : gset string := list_to_set l.

(** Lines 170-172 and 182: the dictionary file whose log is walked. *)
Definition dixName (pairName : string) : string :=
  if negb (String.eqb pairName "tat-kir") then pairName else "tt-ky".

Definition pairDixFile (pairName : string) : string :=
  "apertium-" +:+ dixName pairName +:+ "." +:+ dixName pairName +:+ ".dix".

(** Lines 191-201: the history recorded for the pair, [None] when the
    loop over the file assigns nothing. *)
Definition pairLoad (language pairName : string)
  : result (option (list CommitRecord)) :=
  match json_load env (language +:+ ".json") with
  | Ok oldFile => Ok (find_history oldFile pairName None)
  | Raise FileNotFoundError | Raise JSONDecodeError => Ok (Some [])
  | Raise e => Raise e
  end.

(** What lines 191-201 do to the variable [history]: it names a new
    list when they assign it, and the list of before when they do not. *)
Definition assign_history (st : PairState)
    (loaded : option (list CommitRecord))
  : list (list CommitRecord) * option nat :=
  match loaded with
  | Some h => (store st ++ [h], Some (length (store st)))
  | None => (store st, history_var st)
  end.

(** The body of the loop over the packages.  The commit loop reads and
    extends one list only, so it runs on the value of that list, which
    is put back into the store once the loop is over. *)
Definition pairPackage (language : string) (languages : list string)
    (st : PairState) (package : Package) : result PairState :=
  if negb (Str.contains language (package_name package)
           && match_pair (package_name package))
  then Ok st
  else
    let dirName := package_name package in
    let pairName := rmPrefix dirName in
    let pairList := Str.split "-" pairName in
    if negb (bool_decide (set pairList ⊆ set languages))
       || String.eqb pairName "ita-srd"
    then Ok st
    else
      _ ← prepRepo dirName;
      raw ← git_log env "%H<>%aN<>%aI<>" true (pairDixFile pairName) dirName;
      let commits := commit_lines raw in
      loaded ← pairLoad language pairName;
      let '(store1, var1) := assign_history st loaded in
      commits ← pop commits;
      merged ← mergeLoop (pairCount pairName)
                 ((λ l, store1 !!! l) <$> var1) commits;
      l ← read var1;
      h ← read merged;
      Ok {| store := <[l := h]> store1;
            history_var := Some l;
            langPackages := langPackages st ++ [(pairName, l)] |}.

(** The entries of [langPackages], with the lists they refer to. *)
Definition resolve (st : PairState) : list EntityHistory :=
  map (λ e, {| name := e.1; history := store st !!! e.2 |}) (langPackages st).

(** Returns the history of all pairs of a language. *)
Definition pairHistory (language : string) (languages : list string)
    (packages : list Package) : result (list EntityHistory) :=
  st ← for_each (pairPackage language languages)
         {| store := []; history_var := None; langPackages := [] |} packages;
  Ok (resolve st).

(** *** The snapshots (lines 234-382) *)

(** [for topic in topics: if rmPrefix(topic) in locations:
    location = rmPrefix(topic); break] *)
Fixpoint find_location (locations topics : list string)
    (location : option string) : option string :=
  match topics with
  | [] => location
  | topic :: rest =>
      if mem (rmPrefix topic) locations then Some (rmPrefix topic)
      else find_location locations rest location
  end.

(** [for statistic in stats: if statistic["stat_kind"] == kind:
    stems = statistic["value"]; break] *)
Fixpoint find_stat (kind : string) (stats : list Statistic)
    (stems : option Z) : option Z :=
  match stats with
  | [] => stems
  | statistic :: rest =>
      if String.eqb (stat_kind statistic) kind then Some (value statistic)
      else find_stat kind rest stems
  end.

(** The stats of a dictionary; a response without ["stats"] ends the run. *)
Definition get_stats (url : string) : result (list Statistic) :=
  match requests_get_stats env url with
  | Raise KeyError =>
      Raise (Exception
        "The stats-service seems to be updating at the moment. Please try again later")
  | r => r
  end.

(** [Counter(authors).items()]: the authors in the order of their first
    line, with the number of their lines. *)
Fixpoint count_one (x : string) (c : list (string * Z)) : list (string * Z) :=
  match c with
  | [] => [(x, 1)]
  | (y, n) :: c' =>
      if String.eqb x y then (y, n + 1) :: c' else (y, n) :: count_one x c'
  end.

Definition Counter (l : list string) : list (string * Z) :=
  foldl (λ c x, count_one x c) [] l.

(** Lines 323-325. *)
Definition stateCol (langFamily : string) : nat :=
  if String.eqb langFamily "celtic" then 7%nat else 6%nat.

(** [rmPrefix(row[0][0][0].text)], the name cell of a row. *)
Definition row_name (row : Element) : result string :=
  cell ← index (children row) 0;
  cell ← index (children cell) 0;
  cell ← index (children cell) 0;
  match text cell with
  | Some t => Ok (rmPrefix t)
  | None => Raise TypeError
  end.

(** [row[col].text.strip()], the state cell of a row. *)
Definition row_state (row : Element) (col : nat) : result string :=
  cell ← index (children row) col;
  match text cell with
  | Some t => Ok (Str.strip t)
  | None => Raise AttributeError
  end.

(** Lines 327-331: the state cell of the row of the language;
    [state] is the variable as the loop finds it. *)
Fixpoint find_state (language : string) (col : nat) (rows : list Element)
    (state : option string) : result (option string) :=
  match rows with
  | [] => Ok state
  | row :: rest =>
      rowName ← row_name row;
      if String.eqb rowName language then
        cellText ← row_state row col;
        Ok (Some cellText)
      else find_state language col rest (Some "unknown")
  end.

(** Lines 248-253: the file type the stats service knows the
    dictionary by. *)
Definition fileType (extension : string) : string :=
  if String.eqb extension "lexc" then extension
  else if String.eqb extension "dix" then "monodix"
  else "metamonodix".

(** The variables of [monoData] that live across its loop, and what
    the mailmap audit printed. *)
Record MonoState : Type := {
  mono_data : list MonoRecord;
  stems_var : option Z;
  location_var : option string;
  state_var : option string;
  printed : list (string * string);
}.

(** Lines 286-306: the committers whose address is not in the mailmap. *)
Definition auditMailmap (language file dirName : string)
  : result (list (string * string)) :=
  raw ← git_log env "<%aE> %aN %cI %h" false file dirName;
  let commiters := Str.split (String "010" "") raw in
  mailmap ← read_mailmap env;
  Ok (omap (λ commiter,
             if negb (Str.contains
                        (default "" (head (Str.split " " commiter))) mailmap)
             then Some (commiter, language) else None)
           commiters).

Definition monoPackage (languages : list string) (langFamily : string)
    (updatemailmap : bool) (st : MonoState) (package : Package)
  : result MonoState :=
  if negb (match_mono (package_name package)
           && mem (rmPrefix (package_name package)) languages)
  then Ok st
  else
    let dirName := package_name package in
    let language := rmPrefix dirName in
    _ ← prepRepo dirName;
    let extension := fileExt language in
    let fileType := fileType extension in
    stats ← get_stats ("https://apertium.projectjj.com/stats-service/"
                       +:+ dirName +:+ "/" +:+ fileType +:+ "/");
    let stems := find_stat "Stems" stats (stems_var st) in
    let location :=
      find_location langLocations (package_topics package) (location_var st) in
    let file := monoFile language in
    lines ← git_log env "%aN" false file dirName;
    audit ← (if updatemailmap then auditMailmap language file dirName
             else Ok []);
    authors ← pop (Str.split (String "010" "") lines);
    let contributors := Counter authors in
    table ← wiki_table env ("http://wiki.apertium.org/wiki/" +:+ langFamily
                            +:+ "_languages");
    rows ← match table with
           | Some rows => Ok (drop 2 (children rows))
           | None => Raise TypeError
           end;
    state ← find_state language (stateCol langFamily) rows (state_var st);
    state' ← read state;
    stems' ← read stems;
    location' ← read location;
    Ok {| mono_data := mono_data st ++
            [{| lang := language; state := state'; mono_stems := stems';
                mono_location := dirName +:+ " (" +:+ location' +:+ ")";
                contributors := contributors |}];
          stems_var := stems;
          location_var := location;
          state_var := state;
          printed := printed st ++ audit |}.

(** Returns data for all monolingual dictionaries: state, stems,
    location and contributors. *)
Definition monoData (packages : list Package) (languages : list string)
    (langFamily : string) (updatemailmap : bool) : result (list MonoRecord) :=
  st ← for_each (monoPackage languages langFamily updatemailmap)
         {| mono_data := []; stems_var := None; location_var := None;
            state_var := None; printed := [] |} packages;
  Ok (mono_data st).

Record PairDataState : Type := {
  pair_data : list PairRecord;
  pair_location_var : option string;
  pair_stems_var : option Z;
}.

Definition pairDataPackage (languages : list string) (st : PairDataState)
    (package : Package) : result PairDataState :=
  if negb (match_pair (package_name package)) then Ok st
  else
    let pairName := rmPrefix (package_name package) in
    let pairSet := set (Str.split "-" pairName) in
    if negb (bool_decide (pairSet ⊆ set languages))
       || String.eqb pairName "ita-srd"
    then Ok st
    else
      let location :=
        find_location pairLocations (package_topics package)
          (pair_location_var st) in
      stats ← get_stats ("https://apertium.projectjj.com/stats-service/apertium-"
                         +:+ pairName +:+ "/bidix");
      let stems := find_stat "Entries" stats (pair_stems_var st) in
      location' ← read location;
      stems' ← read stems;
      Ok {| pair_data := pair_data st ++
              [{| langs := pairSet; pair_location := location';
                  pair_stems := stems' |}];
            pair_location_var := location;
            pair_stems_var := stems |}.

(** Returns the locations and stems of all specified pairs. *)
Definition pairData (packages : list Package) (languages : list string)
  : result (list PairRecord) :=
  st ← for_each (pairDataPackage languages)
         {| pair_data := []; pair_location_var := None;
            pair_stems_var := None |} packages;
  Ok (pair_data st).

(** Lines 465-469: what a run persists for one language. *)
Definition langHistory (lang : string) (langs : list string)
    (allPackages : list Package) : result (list EntityHistory) :=
  mono ← monoHistory lang;
  pairs ← pairHistory lang langs allPackages;
  Ok (mono :: pairs).

End Scraper.

(** ** The outcome of one commit of the walk *)

Inductive outcome : Type :=
  | Seen
  | Failed
  | Appended (r : CommitRecord).

(** What the loop body decides for a commit line, given the history as
    it stands when the line is reached. *)
Definition classify (count : string → string → result (option Z))
    (h : list CommitRecord) (commit : string) : result outcome :=
  let data := Str.split "<>" commit in
  data0 ← index data 0;
  data1 ← index data 1;
  data2 ← index data 2;
  if seen h data0 then Ok Seen
  else
    data3 ← index data 3;
    counted ← count data0 data3;
    Ok (match counted with
        | None => Failed
        | Some n => Appended {| sha := data0; author := data1; date := data2;
                                stems := n |}
        end).

Definition extend (h : list CommitRecord) (o : outcome) : list CommitRecord :=
  match o with
  | Appended r => h ++ [r]
  | _ => h
  end.

Fixpoint outcomes (count : string → string → result (option Z))
    (h : list CommitRecord) (commits : list string) : result (list outcome) :=
  match commits with
  | [] => Ok []
  | c :: cs =>
      o ← classify count h c;
      os ← outcomes count (extend h o) cs;
      Ok (o :: os)
  end.

Definition appended (os : list outcome) : list CommitRecord :=
  omap (λ o, match o with Appended r => Some r | _ => None end) os.



(** The hash of a commit line that has its three header fields. *)
Definition commit_sha (commit : string) : option string :=
  match Str.split "<>" commit with
  | s :: _ :: _ :: _ => Some s
  | _ => None
  end.


(** The history a persisted file records under a name. *)
Definition recorded (oldFile : list EntityHistory) (x : string)
  : list CommitRecord :=
  default [] (find_history oldFile x None).

(** The walker output [raw] brings no commit that [h] does not record. *)
Definition no_new_commits (raw : string) (h : list CommitRecord) : Prop :=
  ∀ c, c ∈ removelast (commit_lines raw) →
    ∃ s, commit_sha c = Some s ∧ seen h s = true.

(** The texts that [\w+] matches. *)
Fixpoint all_word (w : string) : bool :=
  match w with
  | EmptyString => true
  | String c w' => Str.isword c && all_word w'
  end.

Definition word (w : string) : Prop := w ≠ "" ∧ all_word w = true.

(** The packages the two pair orchestrators go on with. *)
Definition pair_codes (package : Package) : list string :=
  Str.split "-" (rmPrefix (package_name package)).

Definition pair_kept (languages : list string) (package : Package) : bool :=
  bool_decide (set (pair_codes package) ⊆ set languages)
  && negb (String.eqb (rmPrefix (package_name package)) "ita-srd").

Definition pairHistory_selected (language : string) (languages : list string)
    (package : Package) : bool :=
  Str.contains language (package_name package)
  && match_pair (package_name package)
  && pair_kept languages package.

Definition pairData_selected (languages : list string) (package : Package)
  : bool :=
  match_pair (package_name package) && pair_kept languages package.

Definition monoData_selected (languages : list string) (package : Package)
  : bool :=
  match_mono (package_name package)
  && mem (rmPrefix (package_name package)) languages.

(** The indices a state of [pairHistory] holds point into its store. *)
Definition wf (st : PairState) : Prop :=
  (∀ e, e ∈ langPackages st → e.2 < length (store st))%nat
  ∧ (∀ l, history_var st = Some l → l < length (store st))%nat.


(** ** A small world to run the scraper in

    The family turkic with the languages tat and kir, and the pair
    repository apertium-tat-kir. *)

Definition nl : string := String "010" "".

(** What [git log --format=%H<>%aN<>%aI<> --name-only] prints for a commit. *)
Definition git_entry (s a d f : string) : string :=
  s +:+ "<>" +:+ a +:+ "<>" +:+ d +:+ "<>" +:+ nl +:+ nl +:+ f +:+ nl.

Definition commit_abc : CommitRecord :=
  {| sha := "abc123"; author := "X"; date := "2020-01-01T00:00:00Z";
     stems := 500 |}.

Definition commit_def : CommitRecord :=
  {| sha := "def456"; author := "Y"; date := "2021-01-01T00:00:00Z";
     stems := 9 |}.

Definition entry_abc : string :=
  git_entry "abc123" "X" "2020-01-01T00:00:00Z" "apertium-tat.tat.lexc".

Definition entry_def : string :=
  git_entry "def456" "Y" "2021-01-01T00:00:00Z" "apertium-tt-ky.tt-ky.dix".

Definition entry_bad : string :=
  git_entry "bad789" "Z" "2022-01-01T00:00:00Z" "apertium-tat.tat.lexc".

Definition turkic : list string := ["tat"; "kir"].

Definition turkic_packages : list Package :=
  [{| package_name := "apertium-tat-kir"; package_topics := ["apertium-trunk"] |};
   {| package_name := "apertium-tat"; package_topics := ["apertium-languages"] |}].

(** The persisted file is [file]; the log of the monolingual dictionary
    is [monoLog], the log of every other dictionary [pairLog].  The lexc
    counter aborts on the files of the commit bad789, the dix counter
    answers [dix]. *)
Definition turkic_env (file : result (list EntityHistory))
    (monoLog pairLog : string) (dix : DixInfo) : Env :=
  {| json_load := λ _, file;
     copy_mailmap := λ _, Ok ();
     glob := λ _ _, ["apertium-tat.tat.lexc"];
     git_log := λ _ _ _ cwd,
       Ok (if String.eqb cwd "apertium-tat" then monoLog else pairLog);
     requests_get := λ url, Ok url;
     requests_get_stats := λ _, Ok [];
     countLexcStems := λ dataFile,
       if Str.contains "bad789" dataFile then Raise SystemExit else Ok 7;
     countDixStems := λ _ _, Ok dix;
     wiki_table := λ _, Ok None;
     read_mailmap := Ok "" |}.

(** The file a first run leaves behind. *)
Definition turkic_file : list EntityHistory :=
  [{| name := "tat"; history := [commit_abc] |};
   {| name := "tat-kir"; history := [commit_def] |}].

(** ** A small world for the snapshots

    One monolingual repository whose dictionary files are [files], a
    stats service that knows 1200 stems and 300 entries, three commits by
    two authors, and a wiki table with one row for the language, whose
    cells 6 and 7 read "six" and "seven". *)

Definition cell (t : string) : Element := Elem (Some t) [].

Definition wiki_row (repo : string) : Element :=
  Elem None
    [Elem None [Elem None [cell repo]];
     cell "1"; cell "2"; cell "3"; cell "4"; cell "5";
     cell " six "; cell " seven "].

Definition wiki_example : Element :=
  Elem None [cell "header"; cell "header"; wiki_row "apertium-gle";
             wiki_row "apertium-xyz"].

Definition snapshot_env (files : list string) : Env :=
  {| json_load := λ _, Raise FileNotFoundError;
     copy_mailmap := λ _, Ok ();
     glob := λ _ _, files;
     git_log := λ _ _ _ _, Ok ("Ann" +:+ nl +:+ "Bob" +:+ nl +:+ "Ann" +:+ nl);
     requests_get := λ url, Ok url;
     requests_get_stats := λ _,
       Ok [{| stat_kind := "Stems"; value := 1200 |};
           {| stat_kind := "Entries"; value := 300 |}];
     countLexcStems := λ _, Ok 7;
     countDixStems := λ _ _, Ok (DixStems 9);
     wiki_table := λ _, Ok (Some wiki_example);
     read_mailmap := Ok "" |}.

Definition package_xyz : Package :=
  {| package_name := "apertium-xyz"; package_topics := ["apertium-incubator"] |}.


(** The packages other than the empty duplicate of srd-ita. *)
Definition not_ita_srd (p : Package) : bool :=
  negb (String.eqb (rmPrefix (package_name p)) "ita-srd").


(** The world of the scenario of the pair tat-kir: git only knows the
    log of apertium-tt-ky.tt-ky.dix in apertium-tat-kir, the persisted
    file records the commit abc123 for the pair, and the log has the
    commit def456 on top of it. *)
Definition alias_env : Env :=
  {| json_load := λ _, Ok [{| name := "tat"; history := [] |};
                           {| name := "tat-kir"; history := [commit_abc] |}];
     copy_mailmap := λ _, Ok ();
     glob := λ _ _, [];
     git_log := λ _ _ file cwd,
       if String.eqb file "apertium-tt-ky.tt-ky.dix"
          && String.eqb cwd "apertium-tat-kir"
       then Ok (entry_def
                +:+ git_entry "abc123" "X" "2020-01-01T00:00:00Z"
                      "apertium-tt-ky.tt-ky.dix")
       else Raise CalledProcessError;
     requests_get := λ url, Ok url;
     requests_get_stats := λ _, Ok [];
     countLexcStems := λ _, Ok 7;
     countDixStems := λ _ _, Ok (DixStems 9);
     wiki_table := λ _, Ok None;
     read_mailmap := Ok "" |}.

(** The dictionary files [fileExt] looks for. *)
Definition recognized (file : string) : bool :=
  mem (Str.suffix file) [".lexc"; ".dix"; ".metadix"].

(** The files of the repository of a language that [fileExt] goes over. *)
Definition dictionary_files (env : Env) (repo : string) : list string :=
  glob env ("apertium-" +:+ repo)
    ("apertium-" +:+ repo +:+ "." +:+ repo +:+ ".*").

(** The number of lines of an author in a log. *)
Definition lines_of (x : string) (l : list string) : Z :=
  Z.of_nat (length (List.filter (String.eqb x) l)).

(** The value listed for a user, if any. *)
Fixpoint value_of (c : list (string * Z)) (user : string) : option Z :=
  match c with
  | [] => None
  | (y, n) :: c' => if String.eqb user y then Some n else value_of c' user
  end.

(** The sum of the values of the contributors. *)
Definition total (c : list (string * Z)) : Z := foldr (λ e n, e.2 + n) 0 c.

(** Two states of [monoData] that differ at most in what was printed. *)
Definition same_data (st st' : MonoState) : Prop :=
  mono_data st = mono_data st'
  ∧ stems_var st = stems_var st'
  ∧ location_var st = location_var st'
  ∧ state_var st = state_var st'.

(** Two runs that end alike, with results related by [R]. *)
Definition alike {A B : Type} (R : A → B → Prop) (r : result A) (r' : result B)
  : Prop :=
  match r, r' with
  | Ok a, Ok b => R a b
  | Raise e, Raise e' => e = e'
  | _, _ => False
  end.

(** The address of the stats of a pair. *)
Definition bidix_stats_url (p : Package) : string :=
  "https://apertium.projectjj.com/stats-service/apertium-"
  +:+ rmPrefix (package_name p) +:+ "/bidix".

(** The address of the stats of a monolingual dictionary. *)
Definition mono_stats_url (env : Env) (p : Package) : string :=
  "https://apertium.projectjj.com/stats-service/" +:+ package_name p +:+ "/"
  +:+ fileType (fileExt env (rmPrefix (package_name p))) +:+ "/".

(** ** The error monad and the loops *)

Lemma bind_Ok {A B : Type} (f : A → result B) (a : A) : (Ok a ≫= f) = f a.
Proof. reflexivity. Qed.

Lemma bind_Ok_inv {A B : Type} (f : A → result B) (m : result A) (b : B) :
  (m ≫= f) = Ok b → ∃ a, m = Ok a ∧ f a = Ok b.
Proof. destruct m as [a|e]; [eauto | discriminate]. Qed.

Lemma bind_assoc {A B C : Type} (m : result A) (f : A → result B)
    (g : B → result C) :
  ((m ≫= f) ≫= g) = (m ≫= λ a, f a ≫= g).
Proof. by destruct m. Qed.

Ltac inv_bind H :=
  repeat match type of H with
  | (?m ≫= _) = Ok _ =>
      let a := fresh "a" in
      let Ha := fresh "Ha" in
      apply bind_Ok_inv in H as (a & Ha & H)
  end.

Section Loops.

Context {S A : Type} (body : S → A → result S).

Lemma for_each_app (s : S) (l1 l2 : list A) :
  for_each body s (l1 ++ l2)
  = (for_each body s l1 ≫= λ s', for_each body s' l2).
Proof.
  revert s. induction l1 as [|x l1 IH]; intros s; [done|].
  cbn [for_each app]. destruct (body s x) as [s'|e]; [|done].
  rewrite !bind_Ok. apply IH.
Qed.

(** A step that changes nothing can be left out of the loop. *)
Lemma for_each_filter (keep : A → bool) (s : S) (l : list A) :
  (∀ s x, keep x = false → body s x = Ok s) →
  for_each body s l = for_each body s (List.filter keep l).
Proof.
  intros Hskip. revert s. induction l as [|x l IH]; intros s; [done|].
  cbn [for_each List.filter]. destruct (keep x) eqn:Hk.
  - cbn [for_each]. destruct (body s x); [|done]. rewrite !bind_Ok. apply IH.
  - rewrite (Hskip s x Hk), bind_Ok. apply IH.
Qed.

(** An invariant of the body is an invariant of the loop. *)
Lemma for_each_invariant (I : S → Prop) (s s' : S) (l : list A) :
  (∀ s x s', x ∈ l → I s → body s x = Ok s' → I s') →
  I s → for_each body s l = Ok s' → I s'.
Proof.
  revert s. induction l as [|x l IH]; intros s Hstep Hs Hrun.
  - cbn in Hrun. by injection Hrun as <-.
  - cbn [for_each] in Hrun. inv_bind Hrun.
    apply (IH a); [|by eapply Hstep; [left| |]|done].
    intros ??? Hin. apply Hstep. by right.
Qed.

End Loops.

(** ** The merge loop *)

Section Merge.

Context (count : string → string → result (option Z)).

Lemma mergeCommit_classify (h : list CommitRecord) (c : string) :
  mergeCommit count (Some h) c
  = (classify count h c ≫= λ o, Ok (Some (extend h o))).
Proof.
  unfold mergeCommit, classify.
  destruct (index (Str.split "<>" c) 0) as [d0|]; [|done].
  destruct (index (Str.split "<>" c) 1) as [d1|]; [|done].
  destruct (index (Str.split "<>" c) 2) as [d2|]; [|done].
  cbn. destruct (seen h d0); [done|].
  destruct (index (Str.split "<>" c) 3) as [d3|]; [|done].
  cbn. destruct (count d0 d3) as [[n|]|]; done.
Qed.

Lemma mergeLoop_outcomes (h : list CommitRecord) (cs : list string) :
  mergeLoop count (Some h) cs
  = (outcomes count h cs ≫= λ os, Ok (Some (h ++ appended os))).
Proof.
  unfold mergeLoop. revert h. induction cs as [|c cs IH]; intros h.
  - cbn. by rewrite app_nil_r.
  - cbn [for_each outcomes]. rewrite mergeCommit_classify, !bind_assoc.
    destruct (classify count h c) as [o|]; [|done].
    rewrite !bind_Ok, IH.
    destruct (outcomes count (extend h o) cs) as [os|]; [|done].
    rewrite !bind_Ok. do 2 f_equal.
    destruct o; cbn; try done. by rewrite <- app_assoc.
Qed.



(** A commit that is already recorded leaves the history as it is. *)
Lemma mergeCommit_seen (h : list CommitRecord) (c s : string) :
  commit_sha c = Some s → seen h s = true →
  mergeCommit count (Some h) c = Ok (Some h).
Proof.
  unfold commit_sha, mergeCommit, index. intros Hc Hs.
  destruct (Str.split "<>" c) as [|d0 [|d1 [|d2 rest]]]; try done.
  injection Hc as ->. cbn. by rewrite Hs.
Qed.

Lemma mergeLoop_seen (h : list CommitRecord) (cs : list string) :
  (∀ c, c ∈ cs → ∃ s, commit_sha c = Some s ∧ seen h s = true) →
  mergeLoop count (Some h) cs = Ok (Some h).
Proof.
  unfold mergeLoop. induction cs as [|c cs IH]; intros Hall; [done|].
  cbn [for_each]. destruct (Hall c) as (s & Hc & Hs); [by left|].
  rewrite (mergeCommit_seen h c s Hc Hs), bind_Ok.
  apply IH. intros c' Hin. apply Hall. by right.
Qed.



Lemma seen_spec (h : list CommitRecord) (s : string) :
  seen h s = true ↔ s ∈ sha <$> h.
Proof.
  unfold seen. rewrite existsb_exists, list_elem_of_fmap.
  split.
  - intros (cm & Hin & Heq). apply String.eqb_eq in Heq.
    exists cm. split; [done|]. by apply list_elem_of_In.
  - intros (cm & -> & Hin). exists cm. split; [by apply list_elem_of_In|].
    apply String.eqb_refl.
Qed.

(** No hash is recorded twice by the loop. *)
Lemma classify_NoDup (h : list CommitRecord) (c : string) (o : outcome) :
  classify count h c = Ok o →
  NoDup (sha <$> h) → NoDup (sha <$> extend h o).
Proof.
  unfold classify. intros H Hnd. inv_bind H.
  destruct (seen h a) eqn:Hs; [by injection H as <-|].
  inv_bind H. injection H as <-.
  destruct a3 as [n|]; [|done]. cbn.
  rewrite fmap_app. apply NoDup_app. split; [done|]. split.
  - intros x Hx Hin. cbn in Hin. apply list_elem_of_singleton in Hin as ->.
    apply seen_spec in Hx. congruence.
  - cbn. apply NoDup_singleton.
Qed.

Lemma mergeLoop_NoDup (h h' : list CommitRecord) (cs : list string) :
  NoDup (sha <$> h) →
  mergeLoop count (Some h) cs = Ok (Some h') →
  NoDup (sha <$> h').
Proof.
  unfold mergeLoop. revert h. induction cs as [|c cs IH]; intros h Hnd H.
  - cbn in H. by injection H as <-.
  - cbn [for_each] in H. rewrite mergeCommit_classify, bind_assoc in H.
    inv_bind H. injection Ha0 as <-.
    eapply IH; [|done]. by eapply classify_NoDup.
Qed.

(** With the history unbound, the loop can only be an empty one. *)
Lemma mergeLoop_unbound (cs : list string) (r : option (list CommitRecord)) :
  mergeLoop count None cs = Ok r → r = None.
Proof.
  unfold mergeLoop. destruct cs as [|c cs]; cbn [for_each].
  - by intros [= <-].
  - intros H. apply bind_Ok_inv in H as (s & H & _).
    unfold mergeCommit in H.
    destruct (index (Str.split "<>" c) 0); [|done].
    destruct (index (Str.split "<>" c) 1); [|done].
    destruct (index (Str.split "<>" c) 2); done.
Qed.

(** The loop only ever adds at the end of the history. *)
Lemma mergeLoop_prefix (h h' : list CommitRecord) (cs : list string) :
  mergeLoop count (Some h) cs = Ok (Some h') → ∃ new, h' = h ++ new.
Proof.
  rewrite mergeLoop_outcomes. intros H. inv_bind H. injection H as <-. eauto.
Qed.

End Merge.

(** ** Strings *)

Example split_commit :
  Str.split "<>" "ab12<>Ann<>2020-01-01<>apertium-x.x.dix"
  = ["ab12"; "Ann"; "2020-01-01"; "apertium-x.x.dix"].
Proof. reflexivity. Qed.

Example split_empty : Str.split "<>" "" = [""].
Proof. reflexivity. Qed.

Example split_trailing : Str.split "a" "ba" = ["b"; ""].
Proof. reflexivity. Qed.

Example replace_blank_lines :
  Str.split (String "010" "")
    (Str.replace (String "010" (String "010" "")) ""
       (String "a" (String "010" (String "010" (String "f" (String "010" ""))))))
  = ["af"; ""].
Proof. reflexivity. Qed.

Example strip_path : Str.strip (String "032" ("a.dix" +:+ String "010" "")) = "a.dix".
Proof. reflexivity. Qed.

Example suffix_dix : Str.suffix "apertium-x.x.dix" = ".dix".
Proof. reflexivity. Qed.

Example suffix_hidden : Str.suffix ".mailmap" = "".
Proof. reflexivity. Qed.

Example suffix_trailing_dot : Str.suffix "a." = "".
Proof. reflexivity. Qed.

Lemma split_from_nonempty (sep s : string) (k : nat) :
  Str.split_from sep s k ≠ [].
Proof.
  revert k. induction s as [|c s IH]; intros k; [done|].
  destruct k; cbn [Str.split_from]; [|apply IH].
  destruct (String.prefix sep (String c s)); [done|].
  by destruct (Str.split_from sep s 0).
Qed.

Lemma commit_lines_nonempty (raw : string) : commit_lines raw ≠ [].
Proof. apply split_from_nonempty. Qed.

Lemma pop_lines (raw : string) :
  pop (commit_lines raw) = Ok (removelast (commit_lines raw)).
Proof.
  pose proof (commit_lines_nonempty raw) as H.
  unfold pop. by destruct (commit_lines raw).
Qed.


(** *** The two patterns *)

Lemma append_String (c : ascii) (w r : string) :
  String c w +:+ r = String c (w +:+ r).
Proof. reflexivity. Qed.

Lemma skip_word_app (w r : string) :
  all_word w = true → Str.skip_word (w +:+ r) = Str.skip_word r.
Proof.
  induction w as [|c w IH]; [done|].
  rewrite append_String. cbn [all_word Str.skip_word].
  intros [-> Hw]%andb_true_iff. by apply IH.
Qed.

Lemma skip_word_split (s : string) :
  ∃ w, s = w +:+ Str.skip_word s ∧ all_word w = true.
Proof.
  induction s as [|c s (w & Hs & Hw)]; [by exists ""|].
  cbn [Str.skip_word]. destruct (Str.isword c) eqn:Hc.
  - exists (String c w). rewrite append_String. cbn [all_word].
    by rewrite Hc, Hw, <- Hs.
  - by exists "".
Qed.

Lemma skip_word_idem (s : string) :
  Str.skip_word (Str.skip_word s) = Str.skip_word s.
Proof.
  induction s as [|c s IH]; [done|]. cbn [Str.skip_word].
  destruct (Str.isword c) eqn:Hc; [done|]. cbn [Str.skip_word]. by rewrite Hc.
Qed.

Lemma word_plus_spec (s r : string) :
  Str.word_plus s = Some r →
  ∃ w, word w ∧ s = w +:+ r ∧ r = Str.skip_word r.
Proof.
  unfold Str.word_plus. destruct s as [|c s]; [done|].
  destruct (Str.isword c) eqn:Hc; [|done]. intros [= <-].
  destruct (skip_word_split s) as (w & Hs & Hw).
  exists (String c w). split; [|split].
  - split; [done|]. cbn [all_word]. by rewrite Hc.
  - by rewrite append_String, <- Hs.
  - by rewrite skip_word_idem.
Qed.

Lemma word_plus_app (w r : string) :
  word w → Str.word_plus (w +:+ r) = Some (Str.skip_word r).
Proof.
  intros [Hne Hw]. destruct w as [|c w]; [done|].
  cbn [all_word] in Hw. apply andb_true_iff in Hw as [Hc Hw].
  rewrite append_String. cbn [Str.word_plus]. by rewrite Hc, skip_word_app.
Qed.

Lemma app_empty_r (w : string) : w +:+ "" = w.
Proof. induction w as [|c w IH]; [done|]. by rewrite append_String, IH. Qed.

Lemma literal_app (p r : string) : Str.literal p (p +:+ r) = Some r.
Proof.
  induction p as [|a p IH]; [done|].
  rewrite append_String. cbn [Str.literal]. by rewrite Ascii.eqb_refl.
Qed.

Lemma literal_spec (p s r : string) : Str.literal p s = Some r → s = p +:+ r.
Proof.
  revert s. induction p as [|a p IH]; intros s; cbn.
  - by intros [= ->].
  - destruct s as [|b s]; [done|].
    destruct (Ascii.eqb a b) eqn:Hab; [|done].
    apply Ascii.eqb_eq in Hab as ->. intros H. by rewrite (IH _ H).
Qed.

(** X2.  The pattern of the pair repositories is matched at the start of
    the name only: [match_pair] accepts exactly the texts that are
    apertium-, a word, a dash and a word, followed by anything at all. *)
Lemma match_pair_spec (s : string) :
  match_pair s = true
  ↔ ∃ w1 w2 rest,
      word w1 ∧ word w2 ∧ s = "apertium-" +:+ w1 +:+ "-" +:+ w2 +:+ rest.
Proof.
  unfold match_pair. rewrite bool_decide_eq_true. split.
  - intros [r H].
    apply bind_Some in H as (r1 & H1 & H).
    apply bind_Some in H as (r2 & H2 & H).
    apply bind_Some in H as (r3 & H3 & H).
    apply literal_spec in H1 as ->. apply literal_spec in H3 as ->.
    apply word_plus_spec in H2 as (w1 & Hw1 & -> & _).
    apply word_plus_spec in H as (w2 & Hw2 & -> & _).
    by exists w1, w2, r.
  - intros (w1 & w2 & rest & Hw1 & Hw2 & ->).
    rewrite literal_app. cbn [mbind option_bind].
    rewrite (word_plus_app w1 _ Hw1).
    change (Str.skip_word ("-" +:+ w2 +:+ rest)) with ("-" +:+ w2 +:+ rest).
    cbn [mbind option_bind]. rewrite literal_app. cbn [mbind option_bind].
    by rewrite (word_plus_app w2 _ Hw2).
Qed.

(** X3.  The pattern of the monolingual repositories is matched to the
    end of the name: [match_mono] accepts exactly apertium- followed by
    one word, with at most a newline after it. *)
Lemma match_mono_spec (s : string) :
  match_mono s = true
  ↔ ∃ w, word w ∧ (s = "apertium-" +:+ w ∨ s = "apertium-" +:+ w +:+ nl).
Proof.
  unfold match_mono. split.
  - destruct (_ ≫= _) as [r|] eqn:H; [|done].
    apply bind_Some in H as (r1 & H1 & H).
    apply literal_spec in H1 as ->.
    apply word_plus_spec in H as (w & Hw & -> & _).
    intros [->%String.eqb_eq | ->%String.eqb_eq]%orb_true_iff; exists w.
    + split; [done|]. left. by rewrite app_empty_r.
    + split; [done|]. by right.
  - intros (w & Hw & [-> | ->]).
    + rewrite literal_app. cbn [mbind option_bind].
      rewrite <- (app_empty_r w) at 1.
      by rewrite (word_plus_app w "" Hw).
    + rewrite literal_app. cbn [mbind option_bind].
      by rewrite (word_plus_app w nl Hw).
Qed.

(** ** The persisted file *)

Lemma find_history_prop (P : list CommitRecord → Prop)
    (oldFile : list EntityHistory) (x : string)
    (hist : option (list CommitRecord)) (h : list CommitRecord) :
  P [] →
  (∀ old, old ∈ oldFile → P (history old)) →
  (∀ h0, hist = Some h0 → P h0) →
  find_history oldFile x hist = Some h → P h.
Proof.
  intros Hnil. revert hist. induction oldFile as [|d rest IH]; intros hist Hold Hh H.
  - by apply Hh.
  - cbn in H. destruct (String.eqb (name d) x).
    + injection H as <-. apply Hold. by left.
    + apply (IH (Some [])); [| |exact H].
      * intros old Hin. apply Hold. by right.
      * by intros h0 [= <-].
Qed.

Lemma find_history_bound (oldFile : list EntityHistory) (x : string)
    (hist : option (list CommitRecord)) :
  oldFile ≠ [] → is_Some (find_history oldFile x hist).
Proof.
  intros Hne. destruct oldFile as [|d rest]; [done|]. clear Hne.
  revert d hist. induction rest as [|d' rest IH]; intros d hist; cbn.
  - destruct (String.eqb (name d) x); eauto.
  - destruct (String.eqb (name d) x); [eauto|]. apply (IH d' (Some [])).
Qed.

(** ** The history of a language *)

Section Mono.

Context (env : Env).

Lemma monoHistory_no_new (language : string) (oldFile : list EntityHistory)
    (h : list CommitRecord) (raw : string) :
  json_load env (language +:+ ".json") = Ok oldFile →
  find_history oldFile language None = Some h →
  prepRepo env ("apertium-" +:+ language) = Ok () →
  git_log env "%H<>%aN<>%aI<>" true (monoFile env language)
    ("apertium-" +:+ language) = Ok raw →
  no_new_commits raw h →
  monoHistory env language = Ok {| name := language; history := h |}.
Proof.
  intros Hload Hfind Hprep Hlog Hnew.
  unfold monoHistory, monoLoad. rewrite Hload, Hfind, bind_Ok.
  unfold monoMerge. rewrite Hprep, bind_Ok, Hlog, bind_Ok, pop_lines, bind_Ok.
  by rewrite mergeLoop_seen.
Qed.

Lemma monoMerge_inv (language : string) (hist : option (list CommitRecord))
    (e : EntityHistory) :
  monoMerge env language hist = Ok e →
  ∃ h raw h',
    hist = Some h
    ∧ git_log env "%H<>%aN<>%aI<>" true (monoFile env language)
        ("apertium-" +:+ language) = Ok raw
    ∧ mergeLoop (monoCount env language (fileExt env language)) (Some h)
        (removelast (commit_lines raw)) = Ok (Some h')
    ∧ e = {| name := language; history := h' |}.
Proof.
  unfold monoMerge. intros H.
  apply bind_Ok_inv in H as (_ & _ & H).
  apply bind_Ok_inv in H as (raw & Hraw & H).
  rewrite pop_lines, bind_Ok in H.
  apply bind_Ok_inv in H as (r & Hloop & H).
  apply bind_Ok_inv in H as (h' & Hread & H).
  injection H as <-.
  destruct r as [r|]; [|discriminate]. injection Hread as ->.
  destruct hist as [h|].
  - by exists h, raw, h'.
  - apply mergeLoop_unbound in Hloop. discriminate.
Qed.

Lemma monoLoad_prop (P : list CommitRecord → Prop) (language : string)
    (h : list CommitRecord) :
  P [] →
  (∀ oldFile, json_load env (language +:+ ".json") = Ok oldFile →
     ∀ old, old ∈ oldFile → P (history old)) →
  monoLoad env language = Ok (Some h) → P h.
Proof.
  intros Hnil Hold. unfold monoLoad.
  destruct (json_load env (language +:+ ".json")) as [oldFile|ex].
  - intros [= H].
    apply (find_history_prop P oldFile language None h);
      [done|by apply Hold|done|done].
  - by destruct ex; intros [= <-].
Qed.

Lemma monoHistory_NoDup (language : string) (e : EntityHistory) :
  (∀ oldFile, json_load env (language +:+ ".json") = Ok oldFile →
     ∀ old, old ∈ oldFile → NoDup (sha <$> history old)) →
  monoHistory env language = Ok e →
  NoDup (sha <$> history e).
Proof.
  intros Hold. unfold monoHistory. intros H.
  apply bind_Ok_inv in H as (hist & Hload & H).
  apply monoMerge_inv in H as (h & raw & h' & -> & _ & Hloop & ->).
  cbn. eapply mergeLoop_NoDup; [|done].
  eapply (monoLoad_prop (λ h, NoDup (sha <$> h))); [constructor|done|done].
Qed.

End Mono.

(** ** The histories of the pairs *)

Section Pair.

Context (env : Env).

Lemma pairPackage_skip (language : string) (languages : list string)
    (st : PairState) (p : Package) :
  pairHistory_selected language languages p = false →
  pairPackage env language languages st p = Ok st.
Proof.
  unfold pairHistory_selected, pair_kept, pair_codes, pairPackage.
  destruct (Str.contains language (package_name p)
            && match_pair (package_name p)); [|done].
  cbn [negb andb].
  destruct (bool_decide _); [|done].
  by destruct (String.eqb _ "ita-srd").
Qed.

Lemma pairPackage_run (language : string) (languages : list string)
    (st : PairState) (p : Package) :
  pairHistory_selected language languages p = true →
  pairPackage env language languages st p
  = (prepRepo env (package_name p) ≫= λ _,
     git_log env "%H<>%aN<>%aI<>" true
       (pairDixFile (rmPrefix (package_name p))) (package_name p) ≫= λ raw,
     pairLoad env language (rmPrefix (package_name p)) ≫= λ loaded,
     mergeLoop (pairCount env (rmPrefix (package_name p)))
       ((λ l, (assign_history st loaded).1 !!! l)
          <$> (assign_history st loaded).2)
       (removelast (commit_lines raw)) ≫= λ merged,
     read (assign_history st loaded).2 ≫= λ l,
     read merged ≫= λ h,
     Ok {| store := <[l := h]> (assign_history st loaded).1;
           history_var := Some l;
           langPackages := langPackages st
                           ++ [(rmPrefix (package_name p), l)] |}).
Proof.
  unfold pairHistory_selected, pair_kept, pair_codes, pairPackage.
  destruct (Str.contains language (package_name p)
            && match_pair (package_name p)); [|done].
  cbn [negb andb].
  destruct (bool_decide _); [|done].
  destruct (String.eqb _ "ita-srd"); [done|]. intros _. cbn [negb orb].
  destruct (prepRepo env (package_name p)); [|done]. rewrite !bind_Ok.
  destruct (git_log env _ _ _ _) as [raw|]; [|done]. rewrite !bind_Ok.
  destruct (pairLoad env language _) as [loaded|]; [|done]. rewrite !bind_Ok.
  destruct (assign_history st loaded) as [store1 var1].
  by rewrite pop_lines, bind_Ok.
Qed.

Lemma pairPackage_inv (language : string) (languages : list string)
    (st st' : PairState) (p : Package) :
  pairHistory_selected language languages p = true →
  pairPackage env language languages st p = Ok st' →
  ∃ raw loaded l h',
    git_log env "%H<>%aN<>%aI<>" true
      (pairDixFile (rmPrefix (package_name p))) (package_name p) = Ok raw
    ∧ pairLoad env language (rmPrefix (package_name p)) = Ok loaded
    ∧ (assign_history st loaded).2 = Some l
    ∧ mergeLoop (pairCount env (rmPrefix (package_name p)))
        (Some ((assign_history st loaded).1 !!! l))
        (removelast (commit_lines raw)) = Ok (Some h')
    ∧ st' = {| store := <[l := h']> (assign_history st loaded).1;
               history_var := Some l;
               langPackages := langPackages st
                               ++ [(rmPrefix (package_name p), l)] |}.
Proof.
  intros Hsel. rewrite (pairPackage_run _ _ _ _ Hsel). intros H.
  apply bind_Ok_inv in H as (_ & _ & H).
  apply bind_Ok_inv in H as (raw & Hraw & H).
  apply bind_Ok_inv in H as (loaded & Hload & H).
  apply bind_Ok_inv in H as (merged & Hloop & H).
  apply bind_Ok_inv in H as (l & Hl & H).
  apply bind_Ok_inv in H as (h' & Hh & H).
  injection H as <-.
  destruct (assign_history st loaded).2 as [l0|] eqn:Hvar; [|discriminate].
  injection Hl as ->. destruct merged as [m|]; [|discriminate].
  injection Hh as ->. exists raw, loaded, l, h'.
  by rewrite Hvar.
Qed.

Lemma assign_history_wf (st : PairState) (loaded : option (list CommitRecord))
    (l : nat) :
  wf st → (assign_history st loaded).2 = Some l →
  (l < length (assign_history st loaded).1)%nat
  ∧ (∀ e, e ∈ langPackages st →
       e.2 < length (assign_history st loaded).1)%nat.
Proof.
  intros [Hent Hvar]. destruct loaded as [h|]; cbn.
  - intros [= <-]. rewrite length_app. cbn. split; [lia|].
    intros e He. specialize (Hent e He). lia.
  - intros Hl. split; [by apply Hvar|done].
Qed.

Lemma pairPackage_wf (language : string) (languages : list string)
    (st st' : PairState) (p : Package) :
  wf st → pairPackage env language languages st p = Ok st' → wf st'.
Proof.
  intros Hwf H.
  destruct (pairHistory_selected language languages p) eqn:Hsel.
  - apply (pairPackage_inv _ _ _ _ _ Hsel) in H
      as (raw & loaded & l & h' & _ & _ & Hl & _ & ->).
    destruct (assign_history_wf st loaded l Hwf Hl) as [Hlt Hent].
    split; cbn.
    + intros e He. rewrite length_insert.
      apply elem_of_app in He as [He|He]; [by apply Hent|].
      by apply list_elem_of_singleton in He as ->.
    + intros l' [= <-]. by rewrite length_insert.
  - rewrite pairPackage_skip in H by done. by injection H as <-.
Qed.

(** The names of the entries are the names of the selected packages. *)
Lemma pairPackage_names (language : string) (languages : list string)
    (st st' : PairState) (p : Package) :
  pairPackage env language languages st p = Ok st' →
  (langPackages st').*1
  = (langPackages st).*1
    ++ (if pairHistory_selected language languages p
        then [rmPrefix (package_name p)] else []).
Proof.
  intros H. destruct (pairHistory_selected language languages p) eqn:Hsel.
  - apply (pairPackage_inv _ _ _ _ _ Hsel) in H
      as (raw & loaded & l & h' & _ & _ & _ & _ & ->).
    cbn. by rewrite fmap_app.
  - rewrite pairPackage_skip in H by done. injection H as <-.
    by rewrite app_nil_r.
Qed.

Lemma for_each_pair_names (language : string) (languages : list string)
    (packages : list Package) (st st' : PairState) :
  for_each (pairPackage env language languages) st packages = Ok st' →
  (langPackages st').*1
  = (langPackages st).*1
    ++ ((λ p, rmPrefix (package_name p))
          <$> List.filter (pairHistory_selected language languages) packages).
Proof.
  revert st. induction packages as [|p ps IH]; intros st H.
  - cbn in H. injection H as <-. by rewrite app_nil_r.
  - cbn [for_each] in H. apply bind_Ok_inv in H as (st1 & Hp & H).
    rewrite (IH _ H), (pairPackage_names _ _ _ _ _ Hp). cbn [List.filter].
    rewrite <- app_assoc. f_equal.
    by destruct (pairHistory_selected language languages p).
Qed.

Lemma resolve_names (st : PairState) : name <$> resolve st = (langPackages st).*1.
Proof.
  unfold resolve. rewrite <- list_fmap_compose. by apply list_fmap_ext.
Qed.

Lemma pairHistory_names (language : string) (languages : list string)
    (packages : list Package) (out : list EntityHistory) :
  pairHistory env language languages packages = Ok out →
  name <$> out
  = (λ p, rmPrefix (package_name p))
      <$> List.filter (pairHistory_selected language languages) packages.
Proof.
  unfold pairHistory. intros H. apply bind_Ok_inv in H as (st & Hrun & H).
  injection H as <-.
  by rewrite resolve_names, (for_each_pair_names _ _ _ _ _ Hrun).
Qed.

Lemma pairLoad_prop (P : list CommitRecord → Prop) (language x : string)
    (h : list CommitRecord) :
  P [] →
  (∀ oldFile, json_load env (language +:+ ".json") = Ok oldFile →
     ∀ old, old ∈ oldFile → P (history old)) →
  pairLoad env language x = Ok (Some h) → P h.
Proof.
  intros Hnil Hold. unfold pairLoad.
  destruct (json_load env (language +:+ ".json")) as [oldFile|ex].
  - intros [= H].
    apply (find_history_prop P oldFile x None h);
      [done|by apply Hold|done|done].
  - by destruct ex; intros [= <-].
Qed.

Lemma elem_of_insert_inv {A : Type} (l : list A) (i : nat) (x y : A) :
  x ∈ <[i := y]> l → x = y ∨ x ∈ l.
Proof.
  revert i. induction l as [|z l IH]; intros i; [by right|].
  destruct i as [|i]; cbn; rewrite !elem_of_cons.
  - intros [->|H]; auto.
  - intros [->|H]; [auto|]. destruct (IH i H); auto.
Qed.

(** Every list of the store has each hash once, if the persisted
    histories have. *)
Lemma pairPackage_NoDup (language : string) (languages : list string)
    (st st' : PairState) (p : Package) :
  (∀ oldFile, json_load env (language +:+ ".json") = Ok oldFile →
     ∀ old, old ∈ oldFile → NoDup (sha <$> history old)) →
  wf st ∧ (∀ h, h ∈ store st → NoDup (sha <$> h)) →
  pairPackage env language languages st p = Ok st' →
  wf st' ∧ (∀ h, h ∈ store st' → NoDup (sha <$> h)).
Proof.
  intros Hold [Hwf Hst] H. split; [by eapply pairPackage_wf|].
  destruct (pairHistory_selected language languages p) eqn:Hsel; cycle 1.
  { rewrite pairPackage_skip in H by done. by injection H as <-. }
  apply (pairPackage_inv _ _ _ _ _ Hsel) in H
    as (raw & loaded & l & h' & _ & Hload & Hl & Hloop & ->).
  destruct (assign_history_wf st loaded l Hwf Hl) as [Hlt _].
  assert (Hst1 : ∀ h, h ∈ (assign_history st loaded).1 → NoDup (sha <$> h)).
  { destruct loaded as [h0|]; cbn; [|done].
    intros h [Hh|Hh]%elem_of_app; [by apply Hst|].
    apply list_elem_of_singleton in Hh as ->.
    by eapply (pairLoad_prop (λ h, NoDup (sha <$> h))); [constructor| |]. }
  cbn. intros h [->|Hh]%elem_of_insert_inv; [|by apply Hst1].
  eapply mergeLoop_NoDup; [|done].
  by apply Hst1, list_elem_of_lookup_total_2.
Qed.

Lemma pairHistory_NoDup (language : string) (languages : list string)
    (packages : list Package) (out : list EntityHistory) :
  (∀ oldFile, json_load env (language +:+ ".json") = Ok oldFile →
     ∀ old, old ∈ oldFile → NoDup (sha <$> history old)) →
  pairHistory env language languages packages = Ok out →
  ∀ e, e ∈ out → NoDup (sha <$> history e).
Proof.
  intros Hold H. unfold pairHistory in H.
  apply bind_Ok_inv in H as (st & Hrun & H). injection H as <-.
  apply (for_each_invariant _
           (λ st, wf st ∧ ∀ h, h ∈ store st → NoDup (sha <$> h))) in Hrun.
  - destruct Hrun as [[Hent _] Hst]. unfold resolve.
    intros e (x & -> & Hx)%list_elem_of_fmap. cbn.
    by apply Hst, list_elem_of_lookup_total_2, Hent.
  - intros s x s' _. by apply pairPackage_NoDup.
  - split; [split|]; cbn; [by intros ? ?%elem_of_nil|done|by intros ? ?%elem_of_nil].
Qed.

(** A run that finds no new commit returns what the file records. *)
Lemma for_each_pair_no_new (language : string) (languages : list string)
    (oldFile : list EntityHistory) (packages : list Package) (st : PairState) :
  json_load env (language +:+ ".json") = Ok oldFile →
  oldFile ≠ [] →
  (∀ p, p ∈ packages → pairHistory_selected language languages p = true →
     prepRepo env (package_name p) = Ok ()
     ∧ ∃ raw,
         git_log env "%H<>%aN<>%aI<>" true
           (pairDixFile (rmPrefix (package_name p))) (package_name p) = Ok raw
         ∧ no_new_commits raw (recorded oldFile (rmPrefix (package_name p)))) →
  wf st →
  ∃ st', for_each (pairPackage env language languages) st packages = Ok st'
    ∧ wf st'
    ∧ resolve st'
      = resolve st
        ++ ((λ p, {| name := rmPrefix (package_name p);
                     history := recorded oldFile (rmPrefix (package_name p)) |})
              <$> List.filter (pairHistory_selected language languages) packages).
Proof.
  intros Hload Hne. revert st.
  induction packages as [|p ps IH]; intros st Hall Hwf.
  - exists st. cbn. by rewrite app_nil_r.
  - cbn [for_each List.filter].
    destruct (pairHistory_selected language languages p) eqn:Hsel; cycle 1.
    { rewrite pairPackage_skip, bind_Ok by done.
      apply IH; [|done]. intros q Hq. apply Hall. by right. }
    destruct (Hall p) as (Hprep & raw & Hraw & Hnew); [by left|done|].
    destruct (find_history_bound oldFile (rmPrefix (package_name p)) None Hne)
      as [h Hh].
    assert (Hrec : recorded oldFile (rmPrefix (package_name p)) = h)
      by (unfold recorded; by rewrite Hh).
    set (st1 := {| store := store st ++ [h];
                   history_var := Some (length (store st));
                   langPackages := langPackages st
                     ++ [(rmPrefix (package_name p), length (store st))] |}).
    assert (Hstep : pairPackage env language languages st p = Ok st1).
    { rewrite (pairPackage_run _ _ _ _ Hsel), Hprep, bind_Ok, Hraw, bind_Ok.
      unfold pairLoad. rewrite Hload, Hh, bind_Ok. cbn [assign_history fst snd fmap option_fmap option_map].
      rewrite lookup_total_app_r by lia. rewrite Nat.sub_diag. cbn [lookup_total list_lookup_total].
      rewrite mergeLoop_seen; cycle 1.
      { by rewrite <- Hrec. }
      rewrite bind_Ok. cbn [read]. rewrite !bind_Ok.
      unfold st1. f_equal.
      replace (length (store st)) with (length (store st) + 0)%nat at 1 by lia.
      by rewrite insert_app_r. }
    assert (Hwf1 : wf st1) by (by eapply pairPackage_wf).
    destruct (IH st1) as (st' & Hrun & Hwf' & Hres); [|done|].
    { intros q Hq. apply Hall. by right. }
    exists st'. rewrite Hstep, bind_Ok. split; [done|]. split; [done|].
    rewrite Hres, fmap_cons.
    assert (resolve st1
            = resolve st
              ++ [{| name := rmPrefix (package_name p);
                     history := recorded oldFile (rmPrefix (package_name p)) |}])
      as ->; [|by rewrite <- app_assoc].
    unfold resolve, st1. cbn [langPackages store].
    rewrite map_app. cbn [map fst snd].
    rewrite lookup_total_app_r by lia.
    rewrite Nat.sub_diag. cbn [lookup_total list_lookup_total].
    rewrite Hrec. f_equal.
    apply map_ext_in. intros e He%list_elem_of_In. f_equal.
    destruct Hwf as [Hent _]. by rewrite lookup_total_app_l by by apply Hent.
Qed.

Lemma pairHistory_no_new (language : string) (languages : list string)
    (oldFile : list EntityHistory) (packages : list Package) :
  json_load env (language +:+ ".json") = Ok oldFile →
  oldFile ≠ [] →
  (∀ p, p ∈ packages → pairHistory_selected language languages p = true →
     prepRepo env (package_name p) = Ok ()
     ∧ ∃ raw,
         git_log env "%H<>%aN<>%aI<>" true
           (pairDixFile (rmPrefix (package_name p))) (package_name p) = Ok raw
         ∧ no_new_commits raw (recorded oldFile (rmPrefix (package_name p)))) →
  pairHistory env language languages packages
  = Ok ((λ p, {| name := rmPrefix (package_name p);
                 history := recorded oldFile (rmPrefix (package_name p)) |})
          <$> List.filter (pairHistory_selected language languages) packages).
Proof.
  intros Hload Hne Hall. unfold pairHistory.
  destruct (for_each_pair_no_new language languages oldFile packages
              {| store := []; history_var := None; langPackages := [] |}
              Hload Hne Hall) as (st' & -> & _ & Hres).
  - split; cbn; [by intros ? ?%elem_of_nil|done].
  - by rewrite bind_Ok, Hres.
Qed.

End Pair.

(** ** The scraper at work *)

(** The scenario of the language tat: one commit is recorded, the
    walker reports a newer one as well. *)
Example monoHistory_run :
  monoHistory
    (turkic_env (Ok turkic_file)
       (git_entry "def456" "Y" "2021-01-01T00:00:00Z" "apertium-tat.tat.lexc"
        +:+ entry_abc)
       "" DixFailure) "tat"
  = Ok {| name := "tat";
          history := [commit_abc;
                      {| sha := "def456"; author := "Y";
                         date := "2021-01-01T00:00:00Z"; stems := 7 |}] |}.
Proof. reflexivity. Qed.

(** A persisted file that lists nothing leaves [history] unassigned. *)
Example monoHistory_empty_file :
  monoHistory (turkic_env (Ok []) entry_abc "" DixFailure) "tat"
  = Raise UnboundLocalError
  ∧ pairHistory (turkic_env (Ok []) "" entry_def (DixStems 9)) "tat" turkic
      turkic_packages
    = Raise UnboundLocalError.
Proof. split; reflexivity. Qed.

(** A line of the log without its fields ends the run. *)
Example monoHistory_short_line :
  monoHistory
    (turkic_env (Raise FileNotFoundError) ("abc123<>X" +:+ nl) "" DixFailure)
    "tat"
  = Raise IndexError.
Proof. reflexivity. Qed.

(** The sentinel, had it been kept, would end the run the same way. *)
Example sentinel_kept :
  mergeLoop (λ _ _, Ok (Some 7)) (Some []) (commit_lines entry_abc)
  = Raise IndexError
  ∧ (pop (commit_lines entry_abc) ≫= mergeLoop (λ _ _, Ok (Some 7)) (Some []))
    = Ok (Some [{| sha := "abc123"; author := "X";
                   date := "2020-01-01T00:00:00Z"; stems := 7 |}]).
Proof. split; reflexivity. Qed.

(** ** Idempotence of the merge *)

Lemma find_history_NoDup (l : list EntityHistory) (e : EntityHistory)
    (hist : option (list CommitRecord)) :
  NoDup (name <$> l) → e ∈ l →
  find_history l (name e) hist = Some (history e).
Proof.
  revert hist. induction l as [|d l IH]; intros hist Hnd He.
  - by apply elem_of_nil in He.
  - rewrite fmap_cons in Hnd. apply NoDup_cons in Hnd as [Hd Hnd].
    cbn. destruct (String.eqb (name d) (name e)) eqn:Heq.
    + apply String.eqb_eq in Heq. apply elem_of_cons in He as [->|He]; [done|].
      exfalso. apply Hd. rewrite Heq. by apply list_elem_of_fmap_2.
    + apply elem_of_cons in He as [->|He]; [|by apply IH].
      by rewrite String.eqb_refl in Heq.
Qed.

(** The loop run again on its own result, over the same walk and with
    the same counter, changes nothing: what was appended is now seen,
    what could not be counted is seen or still cannot be counted. *)
Lemma mergeLoop_again (count : string → string → result (option Z))
    (h : list CommitRecord) (cs : list string) (os : list outcome)
    (h2 : list CommitRecord) :
  outcomes count h cs = Ok os →
  (∀ r, r ∈ h ++ appended os → seen h2 (sha r) = true) →
  mergeLoop count (Some h2) cs = Ok (Some h2).
Proof.
  unfold mergeLoop. revert h os. induction cs as [|c cs IH]; intros h os Hos Hh2.
  - done.
  - cbn [outcomes] in Hos. apply bind_Ok_inv in Hos as (o & Ho & Hos).
    apply bind_Ok_inv in Hos as (os' & Hos' & Hos). injection Hos as <-.
    cbn [for_each].
    assert (Hstep : mergeCommit count (Some h2) c = Ok (Some h2)).
    { unfold classify in Ho. unfold mergeCommit.
      destruct (index (Str.split "<>" c) 0) as [d0|]; [|done].
      destruct (index (Str.split "<>" c) 1) as [d1|]; [|done].
      destruct (index (Str.split "<>" c) 2) as [d2|]; [|done].
      rewrite !bind_Ok in Ho. rewrite !bind_Ok. cbn [read]. rewrite bind_Ok.
      destruct (seen h2 d0) eqn:Hseen2; [done|].
      destruct (seen h d0) eqn:Hseen.
      - apply seen_spec in Hseen as (r & Hr & Hin)%list_elem_of_fmap.
        rewrite Hr, Hh2 in Hseen2; [done|]. apply elem_of_app. by left.
      - destruct (index (Str.split "<>" c) 3) as [d3|]; [|done].
        rewrite bind_Ok in Ho. rewrite bind_Ok.
        destruct (count d0 d3) as [[n|]|]; [|done|done].
        injection Ho as <-.
        pose proof (Hh2 {| sha := d0; author := d1; date := d2; stems := n |})
          as Hnew.
        cbn [sha] in Hnew. rewrite Hnew in Hseen2; [done|].
        apply elem_of_app. right. cbn. by left. }
    rewrite Hstep, bind_Ok. apply (IH (extend h o) os' Hos').
    intros r Hr. apply Hh2. destruct o as [| |r0]; cbn in *; try done.
    by rewrite <- app_assoc in Hr.
Qed.

(** X20.  Run again on its own result, over the same log and with the
    same counter, the merge changes nothing: what it appended is now
    seen, and what it could not count it still cannot count. *)
Lemma mergeLoop_idempotent (count : string → string → result (option Z))
    (h h' : list CommitRecord) (cs : list string) :
  mergeLoop count (Some h) cs = Ok (Some h') →
  mergeLoop count (Some h') cs = Ok (Some h').
Proof.
  rewrite mergeLoop_outcomes. intros H.
  apply bind_Ok_inv in H as (os & Hos & H). injection H as <-.
  apply (mergeLoop_again count h cs os); [done|].
  intros r Hr. apply seen_spec. by apply list_elem_of_fmap_2.
Qed.

(** C1 (idempotence of merge).  A run whose walker reports, for the
    language and for each selected pair, no commit beyond those the
    persisted file records returns exactly the recorded histories: every
    commit is skipped, the recorded author, date and stems are kept, and
    nothing is appended. *)
Theorem merge_idempotent (env : Env) (language : string)
    (languages : list string) (packages : list Package)
    (oldFile : list EntityHistory) (h : list CommitRecord) (raw : string) :
  json_load env (language +:+ ".json") = Ok oldFile →
  find_history oldFile language None = Some h →
  prepRepo env ("apertium-" +:+ language) = Ok () →
  git_log env "%H<>%aN<>%aI<>" true (monoFile env language)
    ("apertium-" +:+ language) = Ok raw →
  no_new_commits raw h →
  (∀ p, p ∈ packages → pairHistory_selected language languages p = true →
     prepRepo env (package_name p) = Ok ()
     ∧ ∃ raw,
         git_log env "%H<>%aN<>%aI<>" true
           (pairDixFile (rmPrefix (package_name p))) (package_name p) = Ok raw
         ∧ no_new_commits raw (recorded oldFile (rmPrefix (package_name p)))) →
  langHistory env language languages packages
  = Ok ({| name := language; history := h |}
        :: ((λ p, {| name := rmPrefix (package_name p);
                     history := recorded oldFile (rmPrefix (package_name p)) |})
              <$> List.filter (pairHistory_selected language languages) packages)).
Proof.
  intros Hload Hfind Hprep Hlog Hnew Hpairs. unfold langHistory.
  rewrite (monoHistory_no_new env language oldFile h raw) by done.
  rewrite bind_Ok.
  rewrite (pairHistory_no_new env language languages oldFile packages);
    [done|done| |done].
  intros ->. discriminate.
Qed.

Lemma merge_idempotent_witness :
  langHistory
    (turkic_env (Ok turkic_file) entry_abc entry_def (DixStems 9))
    "tat" turkic turkic_packages
  = Ok turkic_file.
Proof.
  apply (merge_idempotent
           (turkic_env (Ok turkic_file) entry_abc entry_def (DixStems 9))
           "tat" turkic turkic_packages turkic_file [commit_abc] entry_abc);
    try reflexivity.
  - intros c Hc. vm_compute in Hc. apply list_elem_of_singleton in Hc as ->.
    by exists "abc123".
  - intros p Hp Hsel. apply elem_of_cons in Hp as [->|Hp].
    + split; [reflexivity|]. exists entry_def. split; [reflexivity|].
      intros c Hc. vm_compute in Hc. apply list_elem_of_singleton in Hc as ->.
      by exists "def456".
    + apply list_elem_of_singleton in Hp as ->. vm_compute in Hsel. discriminate.
Defined.

(** X21.  Two runs in a row write the same file: when the entries of
    the first run have different names, the second run reads the file of
    the first, and its logs hold nothing that the file does not record,
    the second run returns what the first returned. *)
Lemma langHistory_twice (env1 env2 : Env) (lang : string) (langs : list string)
    (allPackages : list Package) (out : list EntityHistory) :
  langHistory env1 lang langs allPackages = Ok out →
  NoDup (name <$> out) →
  json_load env2 (lang +:+ ".json") = Ok out →
  prepRepo env2 ("apertium-" +:+ lang) = Ok () →
  (∃ raw,
     git_log env2 "%H<>%aN<>%aI<>" true (monoFile env2 lang)
       ("apertium-" +:+ lang) = Ok raw
     ∧ no_new_commits raw (recorded out lang)) →
  (∀ p, p ∈ allPackages → pairHistory_selected lang langs p = true →
     prepRepo env2 (package_name p) = Ok ()
     ∧ ∃ raw,
         git_log env2 "%H<>%aN<>%aI<>" true
           (pairDixFile (rmPrefix (package_name p))) (package_name p) = Ok raw
         ∧ no_new_commits raw (recorded out (rmPrefix (package_name p)))) →
  langHistory env2 lang langs allPackages = Ok out.
Proof.
  intros Hrun Hnd Hload Hprep (raw & Hlog & Hnew) Hpairs.
  unfold langHistory in Hrun.
  apply bind_Ok_inv in Hrun as (mono & Hmono & Hrun).
  apply bind_Ok_inv in Hrun as (pairs & Hpair & Hrun).
  injection Hrun as <-.
  unfold monoHistory in Hmono.
  apply bind_Ok_inv in Hmono as (hist & _ & Hmono).
  apply monoMerge_inv in Hmono as (h0 & raw0 & h' & _ & _ & _ & ->).
  set (mono := {| name := lang; history := h' |}) in *.
  set (out := mono :: pairs) in *.
  assert (Hrec : ∀ e, e ∈ out → recorded out (name e) = history e).
  { intros e He. unfold recorded. by rewrite (find_history_NoDup _ e None). }
  assert (Hmono : recorded out lang = h') by (apply (Hrec mono); by left).
  rewrite Hmono in Hnew.
  assert (Hfind : find_history out lang None = Some h').
  { cbn. by rewrite String.eqb_refl. }
  unfold langHistory.
  rewrite (monoHistory_no_new env2 lang out h' raw Hload Hfind Hprep Hlog Hnew).
  rewrite bind_Ok.
  rewrite (pairHistory_no_new env2 lang langs out allPackages Hload);
    [|done|done].
  rewrite bind_Ok. do 2 f_equal.
  apply pairHistory_names in Hpair.
  rewrite (list_fmap_compose (λ p, rmPrefix (package_name p))
             (λ n, {| name := n; history := recorded out n |})).
  rewrite <- Hpair, <- list_fmap_compose.
  rewrite <- (list_fmap_id pairs) at 2. apply list_fmap_ext.
  intros i e Hie. unfold compose, id. rewrite Hrec.
  - by destruct e.
  - right. by eapply list_elem_of_lookup_2.
Qed.

(** ** No hash twice *)

(** C2 (no duplicate shas), as the code has it.  The merge never records
    a hash that the history already holds, so a persisted file whose
    histories are free of repeated hashes yields histories free of them,
    whatever the walker reports.  The merge does not clean a persisted
    history that already repeats a hash. *)
Theorem no_duplicate_shas (env : Env) (language : string)
    (languages : list string) (packages : list Package)
    (out : list EntityHistory) :
  (∀ oldFile, json_load env (language +:+ ".json") = Ok oldFile →
     ∀ old, old ∈ oldFile → NoDup (sha <$> history old)) →
  langHistory env language languages packages = Ok out →
  Forall (λ e, NoDup (sha <$> history e)) out.
Proof.
  intros Hold H. unfold langHistory in H.
  apply bind_Ok_inv in H as (mono & Hmono & H).
  apply bind_Ok_inv in H as (pairs & Hpairs & H).
  injection H as <-. constructor.
  - by eapply monoHistory_NoDup.
  - apply Forall_forall. by eapply pairHistory_NoDup.
Qed.

Lemma no_duplicate_shas_witness :
  Forall (λ e, NoDup (sha <$> history e))
    [{| name := "tat";
        history := [commit_abc;
                    {| sha := "def456"; author := "Y";
                       date := "2021-01-01T00:00:00Z"; stems := 7 |}] |};
     {| name := "tat-kir"; history := [commit_def] |}].
Proof.
  apply (no_duplicate_shas
           (turkic_env (Ok turkic_file) (entry_def +:+ entry_def +:+ entry_abc)
              (entry_def +:+ entry_def) (DixStems 9))
           "tat" turkic turkic_packages).
  - intros oldFile [= <-] old Hold.
    apply elem_of_cons in Hold as [->|Hold];
      [|apply list_elem_of_singleton in Hold as ->]; apply NoDup_singleton.
  - reflexivity.
Defined.

(** A persisted history that repeats a hash comes back as it is. *)
Lemma duplicate_shas_counterexample :
  ∃ e,
    monoHistory
      (turkic_env (Ok [{| name := "tat"; history := [commit_abc; commit_abc] |}])
         "" "" DixFailure) "tat" = Ok e
    ∧ ¬ NoDup (sha <$> history e).
Proof.
  eexists. split; [reflexivity|]. cbn.
  intros [Hin _]%NoDup_cons. apply Hin. by left.
Qed.

(** ** Commits that cannot be counted *)




(** The walk of a language with no persisted file: the commit bad789 is
    left out, the commit after it is counted. *)
Example skip_on_failure_run :
  monoHistory
    (turkic_env (Raise FileNotFoundError) (entry_bad +:+ entry_abc) ""
       DixFailure) "tat"
  = Ok {| name := "tat";
          history := [{| sha := "abc123"; author := "X";
                         date := "2020-01-01T00:00:00Z"; stems := 7 |}] |}.
Proof. reflexivity. Qed.

(** ** The sentinel line *)



Lemma classify_appended (count : string → string → result (option Z))
    (h : list CommitRecord) (c : string) (r : CommitRecord) :
  classify count h c = Ok (Appended r) → commit_sha c = Some (sha r).
Proof.
  unfold classify, commit_sha, index.
  destruct (Str.split "<>" c) as [|s [|a [|d rest]]]; try done.
  cbn. destruct (seen h s); [done|].
  destruct (rest !! 0%nat); [|done]. cbn.
  destruct (count s s0) as [[n|]|]; cbn; [|done|done].
  by intros [= <-].
Qed.





(** ** A persisted file that is missing or broken *)



(** ** The extension of the monolingual dictionary *)

Lemma insert_sorted_elem (x y : string) (l : list string) :
  y ∈ Str.insert_sorted x l ↔ y = x ∨ y ∈ l.
Proof.
  induction l as [|z l IH]; cbn.
  - rewrite list_elem_of_singleton. split; [auto|]. intros [?|?%elem_of_nil]; done.
  - destruct (String.leb x z).
    + by rewrite elem_of_cons.
    + rewrite !elem_of_cons, IH. tauto.
Qed.

Lemma sorted_elem (y : string) (l : list string) : y ∈ Str.sorted l ↔ y ∈ l.
Proof.
  unfold Str.sorted. induction l as [|x l IH]; cbn; [done|].
  by rewrite insert_sorted_elem, elem_of_cons, IH.
Qed.


Lemma monoPackage_appends (env : Env) (languages : list string)
    (langFamily : string) (updatemailmap : bool) (st st' : MonoState)
    (p : Package) :
  monoData_selected languages p = true →
  monoPackage env languages langFamily updatemailmap st p = Ok st' →
  ∃ r, mono_data st' = mono_data st ++ [r]
       ∧ lang r = rmPrefix (package_name p).
Proof.
  unfold monoData_selected, monoPackage. intros -> H. cbn [negb] in H.
  repeat (apply bind_Ok_inv in H as (? & _ & H)).
  injection H as <-. cbn [mono_data]. by eexists.
Qed.




(** ** The pair that is left out *)

Lemma pair_kept_not_ita_srd (languages : list string) (p : Package) :
  not_ita_srd p = false → pair_kept languages p = false.
Proof.
  unfold not_ita_srd, pair_kept. intros ->. apply andb_false_r.
Qed.

Lemma pairHistory_selected_not_ita_srd (language : string)
    (languages : list string) (p : Package) :
  not_ita_srd p = false → pairHistory_selected language languages p = false.
Proof.
  intros H. unfold pairHistory_selected.
  rewrite (pair_kept_not_ita_srd _ _ H). apply andb_false_r.
Qed.

Lemma pairDataPackage_skip (env : Env) (languages : list string)
    (st : PairDataState) (p : Package) :
  pairData_selected languages p = false →
  pairDataPackage env languages st p = Ok st.
Proof.
  unfold pairData_selected, pair_kept, pair_codes, pairDataPackage.
  destruct (match_pair (package_name p)); [|done]. cbn [negb andb].
  destruct (bool_decide _); [|done].
  by destruct (String.eqb _ "ita-srd").
Qed.

Lemma pairDataPackage_inv (env : Env) (languages : list string)
    (st st' : PairDataState) (p : Package) :
  pairData_selected languages p = true →
  pairDataPackage env languages st p = Ok st' →
  ∃ location n,
    pair_data st'
    = pair_data st ++ [{| langs := set (pair_codes p);
                          pair_location := location; pair_stems := n |}].
Proof.
  unfold pairData_selected, pair_kept, pair_codes, pairDataPackage.
  destruct (match_pair (package_name p)); [|done]. cbn [negb andb].
  destruct (bool_decide _); [|done].
  destruct (String.eqb _ "ita-srd"); [done|]. intros _ H. cbn [negb orb] in H.
  apply bind_Ok_inv in H as (stats & _ & H).
  apply bind_Ok_inv in H as (location & _ & H).
  apply bind_Ok_inv in H as (n & _ & H).
  injection H as <-. by exists location, n.
Qed.

Lemma for_each_pairData_langs (env : Env) (languages : list string)
    (packages : list Package) (st st' : PairDataState) :
  for_each (pairDataPackage env languages) st packages = Ok st' →
  langs <$> pair_data st'
  = (langs <$> pair_data st)
    ++ ((λ p, set (pair_codes p))
          <$> List.filter (pairData_selected languages) packages).
Proof.
  revert st. induction packages as [|p ps IH]; intros st H.
  - cbn in H. injection H as <-. by rewrite app_nil_r.
  - cbn [for_each] in H. apply bind_Ok_inv in H as (st1 & Hp & H).
    rewrite (IH _ H). cbn [List.filter].
    destruct (pairData_selected languages p) eqn:Hsel.
    + apply (pairDataPackage_inv _ _ _ _ _ Hsel) in Hp as (location & n & ->).
      by rewrite fmap_app, fmap_cons, <- app_assoc.
    + rewrite pairDataPackage_skip in Hp by done. by injection Hp as <-.
Qed.

(** C7 (ita-srd exclusion).  Neither orchestrator does anything for a
    package whose pair name is ita-srd: both give the result they give
    on the catalog without such packages, and no entry of the pair
    histories is named ita-srd.  This holds for every list of languages,
    so also for those that contain ita and srd. *)
Theorem ita_srd_excluded (env : Env) (language : string)
    (languages : list string) (packages : list Package) :
  pairHistory env language languages packages
  = pairHistory env language languages (List.filter not_ita_srd packages)
  ∧ pairData env packages languages
    = pairData env (List.filter not_ita_srd packages) languages
  ∧ (∀ out, pairHistory env language languages packages = Ok out →
       Forall (λ e, name e ≠ "ita-srd") out).
Proof.
  split; [|split].
  - unfold pairHistory. rewrite (for_each_filter _ not_ita_srd); [done|].
    intros st p Hp. by apply pairPackage_skip, pairHistory_selected_not_ita_srd.
  - unfold pairData. rewrite (for_each_filter _ not_ita_srd); [done|].
    intros st p Hp. apply pairDataPackage_skip. unfold pairData_selected.
    rewrite (pair_kept_not_ita_srd _ _ Hp). apply andb_false_r.
  - intros out Hout. apply Forall_forall. intros e He Hname.
    apply (list_elem_of_fmap_2 name) in He.
    rewrite (pairHistory_names _ _ _ _ _ Hout) in He.
    apply list_elem_of_fmap in He as (p & Hp & Hin).
    apply list_elem_of_In, filter_In in Hin as [_ Hsel].
    unfold pairHistory_selected, pair_kept in Hsel.
    rewrite <- Hp, Hname, String.eqb_refl in Hsel.
    by rewrite !andb_false_r in Hsel.
Qed.

(** The Italian and Sardinian repositories: only srd-ita gives entries. *)
Example ita_srd_run :
  let env := turkic_env (Raise FileNotFoundError) "" entry_def (DixStems 9) in
  let packages :=
    [{| package_name := "apertium-ita-srd"; package_topics := ["apertium-trunk"] |};
     {| package_name := "apertium-srd-ita"; package_topics := ["apertium-trunk"] |}] in
  pairHistory env "ita" ["ita"; "srd"] packages
  = Ok [{| name := "srd-ita"; history := [commit_def] |}]
  ∧ pairData (snapshot_env []) packages ["ita"; "srd"]
    = Ok [{| langs := set ["srd"; "ita"]; pair_location := "trunk";
             pair_stems := 300 |}].
Proof. split; vm_compute; reflexivity. Qed.

(** ** The dictionary of tat-kir *)






(** The scenario of the pair tat-kir: the prior record stays, the new
    commit is counted and appended after it. *)
Example tat_kir_run :
  pairHistory alias_env "tat" turkic turkic_packages
  = Ok [{| name := "tat-kir"; history := [commit_abc; commit_def] |}].
Proof. reflexivity. Qed.

(** ** The state column of the wiki table *)




(** The same table read for a Celtic and for a Turkic family. *)
Example celtic_column_run :
  monoData (snapshot_env ["apertium-xyz.xyz.dix"]) [package_xyz] ["xyz"]
    "celtic" false
  = Ok [{| lang := "xyz"; state := "seven"; mono_stems := 1200;
           mono_location := "apertium-xyz (incubator)";
           contributors := [("Ann", 2); ("Bob", 1)] |}]
  ∧ monoData (snapshot_env ["apertium-xyz.xyz.dix"]) [package_xyz] ["xyz"]
      "turkic" false
    = Ok [{| lang := "xyz"; state := "six"; mono_stems := 1200;
             mono_location := "apertium-xyz (incubator)";
             contributors := [("Ann", 2); ("Bob", 1)] |}].
Proof. split; reflexivity. Qed.

(** ** The codes of a pair *)

Lemma split_after_word (s rest : string) :
  Str.skip_word s = String "-" rest →
  (2 ≤ length (Str.split "-" s))%nat.
Proof.
  unfold Str.split. induction s as [|c s IH]; [done|].
  cbn [Str.skip_word Str.split_from String.prefix].
  destruct (Str.isword c) eqn:Hw.
  - intros H. specialize (IH H).
    destruct (ascii_dec "-" c) as [<-|_]; [done|].
    destruct (Str.split_from "-" s 0); [cbn in IH; lia|done].
  - intros [= -> ->].
    destruct (ascii_dec "-" "-") as [_|Hne]; [|done].
    assert (String.prefix "" rest = true) as -> by by destruct rest.
    cbn [String.length Nat.sub length].
    pose proof (split_from_nonempty "-" rest 0).
    destruct (Str.split_from "-" rest 0); [done|cbn; lia].
Qed.

Lemma match_pair_codes (p : Package) :
  match_pair (package_name p) = true → (2 ≤ length (pair_codes p))%nat.
Proof.
  unfold match_pair, pair_codes. intros [r H]%bool_decide_eq_true.
  apply bind_Some in H as (r1 & H1 & H).
  apply bind_Some in H as (r2 & H2 & H).
  apply bind_Some in H as (r3 & H3 & _).
  apply literal_spec in H1 as ->. apply literal_spec in H3 as ->.
  change (rmPrefix ("apertium-" +:+ r1)) with r1.
  apply (split_after_word r1 r3).
  unfold Str.word_plus in H2. destruct r1 as [|c r1]; [done|].
  cbn [Str.skip_word]. destruct (Str.isword c); [|done]. by injection H2 as ->.
Qed.

Lemma pair_kept_codes (languages : list string) (p : Package) :
  pair_kept languages p = true →
  ∀ code, code ∈ pair_codes p → code ∈ languages.
Proof.
  unfold pair_kept, set. intros [Hsub _]%andb_true_iff code Hcode.
  apply bool_decide_eq_true in Hsub.
  apply (elem_of_list_to_set (C := gset string)).
  apply Hsub. by apply elem_of_list_to_set.
Qed.

Lemma pair_kept_outside (languages : list string) (p : Package) (code : string) :
  code ∈ pair_codes p → code ∉ languages → pair_kept languages p = false.
Proof.
  intros Hcode Hout. destruct (pair_kept languages p) eqn:Hkept; [|done].
  by destruct Hout; eapply pair_kept_codes.
Qed.

(** C10 (pair membership), as the code has it.  Every entry of the pair
    histories is named after a package of the catalog, every entry of
    the pair snapshots lists the set of codes of one; the name of that
    package after the prefix splits at its dashes into at least two
    codes, and all of them are in the list of languages of the family.
    A package with a code outside that list produces nothing. *)
Theorem pair_membership (env : Env) (language : string)
    (languages : list string) (packages : list Package) :
  (∀ out, pairHistory env language languages packages = Ok out →
     Forall (λ e, ∃ p, p ∈ packages
                       ∧ name e = rmPrefix (package_name p)
                       ∧ (2 ≤ length (pair_codes p))%nat
                       ∧ ∀ code, code ∈ pair_codes p → code ∈ languages) out)
  ∧ (∀ out, pairData env packages languages = Ok out →
       Forall (λ r, ∃ p, p ∈ packages
                         ∧ langs r = set (pair_codes p)
                         ∧ (2 ≤ length (pair_codes p))%nat
                         ∧ ∀ code, code ∈ pair_codes p → code ∈ languages) out)
  ∧ (∀ p code, code ∈ pair_codes p → code ∉ languages →
       (∀ st, pairPackage env language languages st p = Ok st)
       ∧ (∀ st, pairDataPackage env languages st p = Ok st)).
Proof.
  split; [|split].
  - intros out Hout. apply Forall_forall. intros e He.
    apply (list_elem_of_fmap_2 name) in He.
    rewrite (pairHistory_names _ _ _ _ _ Hout) in He.
    apply list_elem_of_fmap in He as (p & Hp & Hin).
    apply list_elem_of_In, filter_In in Hin as [Hin Hsel].
    unfold pairHistory_selected in Hsel.
    apply andb_true_iff in Hsel as [[_ Hmatch]%andb_true_iff Hkept].
    exists p. split; [by apply list_elem_of_In|]. split; [done|].
    split; [by apply match_pair_codes|by apply pair_kept_codes].
  - intros out Hout. unfold pairData in Hout.
    apply bind_Ok_inv in Hout as (st & Hrun & Hout). injection Hout as <-.
    apply for_each_pairData_langs in Hrun. cbn in Hrun.
    apply Forall_forall. intros r Hr.
    apply (list_elem_of_fmap_2 langs) in Hr. rewrite Hrun in Hr.
    apply list_elem_of_fmap in Hr as (p & Hp & Hin).
    apply list_elem_of_In, filter_In in Hin as [Hin Hsel].
    unfold pairData_selected in Hsel.
    apply andb_true_iff in Hsel as [Hmatch Hkept].
    exists p. split; [by apply list_elem_of_In|]. split; [done|].
    split; [by apply match_pair_codes|by apply pair_kept_codes].
  - intros p code Hcode Hout.
    pose proof (pair_kept_outside languages p code Hcode Hout) as Hkept.
    split; intros st.
    + apply pairPackage_skip. unfold pairHistory_selected.
      rewrite Hkept. apply andb_false_r.
    + apply pairDataPackage_skip. unfold pairData_selected.
      rewrite Hkept. apply andb_false_r.
Qed.

Lemma pair_membership_witness :
  Forall (λ e, ∃ p, p ∈ turkic_packages
                    ∧ name e = rmPrefix (package_name p)
                    ∧ (2 ≤ length (pair_codes p))%nat
                    ∧ ∀ code, code ∈ pair_codes p → code ∈ turkic)
    [{| name := "tat-kir"; history := [commit_abc; commit_def] |}].
Proof.
  apply (proj1 (pair_membership alias_env "tat" turkic turkic_packages)).
  reflexivity.
Defined.

(** A repository whose name goes on after the second code passes the
    pattern, and its entry names three codes. *)
Lemma pair_membership_counterexample :
  ∃ e,
    pairHistory (turkic_env (Raise FileNotFoundError) "" entry_def (DixStems 9))
      "tat" ["tat"; "kir"; "kaz"]
      [{| package_name := "apertium-tat-kir-kaz";
          package_topics := ["apertium-incubator"] |}]
    = Ok [e]
    ∧ Str.split "-" (name e) = ["tat"; "kir"; "kaz"]
    ∧ length (Str.split "-" (name e)) ≠ 2%nat.
Proof.
  exists {| name := "tat-kir-kaz"; history := [commit_def] |}.
  split; [reflexivity|]. split; [reflexivity|]. cbn. lia.
Qed.

(** * Further properties of the scraper *)

(** ** Names and patterns *)

Lemma rmPrefix_app (s : string) : rmPrefix ("apertium-" +:+ s) = s.
Proof. reflexivity. Qed.

(** X1.  [rmPrefix] takes the first nine characters off a word, whatever
    they are; it gives back what was put after a prefix of that length,
    apertium- or any other. *)
Theorem rmPrefix_drops_nine (p s : string) :
  String.length p = 9%nat → rmPrefix (p +:+ s) = s.
Proof.
  unfold rmPrefix. change (String.length "apertium-") with 9%nat.
  generalize 9%nat. intros n. revert p.
  induction n as [|n IH]; intros [|c p] Hlen; try done.
  rewrite append_String. cbn [Str.drop]. apply IH. by injection Hlen.
Qed.

Lemma rmPrefix_drops_nine_witness :
  rmPrefix ("apertium-" +:+ "tat") = "tat"
  ∧ rmPrefix ("not-a-tag" +:+ "languages") = "languages".
Proof.
  split.
  - apply (rmPrefix_drops_nine "apertium-" "tat"). reflexivity.
  - apply (rmPrefix_drops_nine "not-a-tag" "languages"). reflexivity.
Defined.

(** X4.  No name passes both patterns: a package is never taken for a
    monolingual and for a pair repository at once. *)
Theorem patterns_disjoint (s : string) :
  match_mono s = true → match_pair s = false.
Proof.
  unfold match_mono, match_pair. intros Hmono.
  apply bool_decide_eq_false. intros [r H].
  apply bind_Some in H as (r1 & H1 & H).
  apply bind_Some in H as (r2 & H2 & H).
  apply bind_Some in H as (r3 & H3 & _).
  rewrite H1 in Hmono. cbn [mbind option_bind] in Hmono. rewrite H2 in Hmono.
  by apply orb_true_iff in Hmono as [->%String.eqb_eq | ->%String.eqb_eq].
Qed.

Lemma patterns_disjoint_witness : match_pair "apertium-tat" = false.
Proof. apply (patterns_disjoint "apertium-tat"). reflexivity. Defined.

Lemma prefix_refl (s : string) : String.prefix s s = true.
Proof.
  induction s as [|c s IH]; [done|]. cbn. by destruct (ascii_dec c c).
Qed.

Lemma prefix_empty (s : string) : String.prefix "" s = true.
Proof. by destruct s. Qed.

Lemma contains_tail (x : string) (c : ascii) (s : string) :
  Str.contains x s = true → Str.contains x (String c s) = true.
Proof. intros H. cbn [Str.contains]. rewrite H. apply orb_true_r. Qed.

Lemma contains_drop (x : string) (n : nat) (s : string) :
  Str.contains x (Str.drop n s) = true → Str.contains x s = true.
Proof.
  revert s. induction n as [|n IH]; intros [|c s]; try done.
  cbn [Str.drop]. intros H. by apply contains_tail, IH.
Qed.

(** The texts between the dashes occur in the text; the first of them
    starts it. *)
Lemma split_dash_contains (s : string) :
  (∀ tok toks, Str.split "-" s = tok :: toks → String.prefix tok s = true)
  ∧ (∀ x, x ∈ Str.split "-" s → Str.contains x s = true).
Proof.
  unfold Str.split. induction s as [|c s [IHhead IHall]].
  - split.
    + by intros tok toks [= <- <-].
    + by intros x ->%list_elem_of_singleton.
  - cbn [Str.split_from String.prefix].
    destruct (ascii_dec "-" c) as [<-|Hc].
    + rewrite prefix_empty. cbn [String.length Nat.sub]. split.
      * by intros tok toks [= <- <-].
      * intros x [->|Hx]%elem_of_cons.
        -- cbn [Str.contains]. by rewrite prefix_empty.
        -- by apply contains_tail, IHall.
    + pose proof (split_from_nonempty "-" s 0) as Hne.
      destruct (Str.split_from "-" s 0) as [|tok0 toks0] eqn:Hsplit; [done|].
      assert (Hhead : String.prefix (String c tok0) (String c s) = true).
      { cbn [String.prefix]. destruct (ascii_dec c c); [|done].
        by apply (IHhead tok0 toks0). }
      split.
      * by intros tok toks [= <- <-].
      * intros x [->|Hx]%elem_of_cons.
        -- cbn [Str.contains]. by rewrite Hhead.
        -- apply contains_tail, IHall. by right.
Qed.

(** X5.  The test [language in package["name"]] misses no pair of the
    language: a package that the snapshot of the pairs keeps and whose
    codes include the language is kept for the history of the language
    as well. *)
Theorem pair_of_language_selected (language : string)
    (languages : list string) (p : Package) :
  pairData_selected languages p = true →
  language ∈ pair_codes p →
  pairHistory_selected language languages p = true.
Proof.
  unfold pairData_selected, pairHistory_selected, pair_codes.
  intros [Hmatch Hkept]%andb_true_iff Hin. rewrite Hmatch, Hkept.
  rewrite !andb_true_r. unfold rmPrefix in Hin.
  by apply (contains_drop _ (String.length "apertium-")), split_dash_contains.
Qed.

Lemma pair_of_language_selected_witness :
  pairHistory_selected "kir" turkic
    {| package_name := "apertium-tat-kir"; package_topics := [] |} = true.
Proof.
  apply (pair_of_language_selected "kir" turkic).
  - reflexivity.
  - vm_compute. right. by left.
Defined.

(** ** The extension of a dictionary *)

Lemma recognized_extension (file : string) :
  recognized file = true →
  Str.replace "." "" (Str.suffix file) ∈ ["lexc"; "dix"; "metadix"].
Proof.
  unfold recognized, mem. cbn [existsb]. rewrite orb_false_r.
  intros [H|[H|H]%orb_true_iff]%orb_true_iff;
    apply String.eqb_eq in H as ->.
  - by left.
  - right. by left.
  - do 2 right. by left.
Qed.

(** X6.  [fileExt] answers lexc, dix, metadix or unknown, and nothing
    else. *)
Theorem fileExt_range (env : Env) (repo : string) :
  fileExt env repo ∈ ["lexc"; "dix"; "metadix"; "unknown"].
Proof.
  unfold fileExt. destruct (List.find _ _) as [file|] eqn:Hfind.
  - apply find_some in Hfind as [_ Hrec].
    apply recognized_extension in Hrec.
    repeat (apply elem_of_cons in Hrec as [->|Hrec]);
      [by left|right; by left|do 2 right; by left|by apply elem_of_nil in Hrec].
  - do 3 right. by left.
Qed.

Lemma leb_trans (x y z : string) :
  String.leb x y = true → String.leb y z = true → String.leb x z = true.
Proof.
  intros Hxy%Is_true_true Hyz%Is_true_true. apply Is_true_true.
  by apply (transitivity (R := String.le) (y := y)).
Qed.

Lemma leb_refl (x : string) : String.leb x x = true.
Proof. by destruct (String.leb_total x x). Qed.

Lemma insert_sorted_sorted (x : string) (l : list string) :
  StronglySorted (λ a b, String.leb a b = true) l →
  StronglySorted (λ a b, String.leb a b = true) (Str.insert_sorted x l).
Proof.
  induction l as [|y l IH]; intros Hl; cbn.
  - repeat constructor.
  - apply StronglySorted_cons in Hl as [Hy Hl].
    destruct (String.leb x y) eqn:Hxy.
    + apply StronglySorted_cons. split; [|by apply StronglySorted_cons].
      constructor; [done|]. eapply Forall_impl; [exact Hy|].
      intros z Hz. by eapply leb_trans.
    + apply StronglySorted_cons. split; [|by apply IH].
      apply Forall_forall. intros z [->|Hz]%insert_sorted_elem.
      * by destruct (String.leb_total x y) as [H|H]; [congruence|].
      * by eapply Forall_forall in Hy.
Qed.

Lemma sorted_sorted (l : list string) :
  StronglySorted (λ a b, String.leb a b = true) (Str.sorted l).
Proof.
  unfold Str.sorted. induction l as [|x l IH]; cbn; [constructor|].
  by apply insert_sorted_sorted.
Qed.

Lemma find_sorted_least (keep : string → bool) (l : list string)
    (x f : string) :
  StronglySorted (λ a b, String.leb a b = true) l →
  List.find keep l = Some x → f ∈ l → keep f = true →
  String.leb x f = true.
Proof.
  induction l as [|y l IH]; intros Hl Hfind Hf Hkeep; [done|].
  apply StronglySorted_cons in Hl as [Hy Hl]. cbn in Hfind.
  destruct (keep y) eqn:Hky.
  - injection Hfind as <-. apply elem_of_cons in Hf as [->|Hf].
    + apply leb_refl.
    + by eapply Forall_forall in Hy.
  - apply elem_of_cons in Hf as [->|Hf]; [congruence|]. by apply IH.
Qed.

(** X7.  Among several dictionary files, the one that comes first by
    name decides: whatever the order in which the directory lists its
    files, [fileExt] answers the extension of the least file with one of
    the three extensions. *)
Theorem fileExt_least (env : Env) (repo file : string) :
  file ∈ dictionary_files env repo →
  recognized file = true →
  (∀ other, other ∈ dictionary_files env repo → recognized other = true →
     String.leb file other = true) →
  fileExt env repo = Str.replace "." "" (Str.suffix file).
Proof.
  intros Hin Hrec Hleast. unfold fileExt. fold (dictionary_files env repo).
  destruct (List.find _ _) as [x|] eqn:Hfind.
  - pose proof (find_sorted_least _ _ x file (sorted_sorted _) Hfind) as Hle.
    apply find_some in Hfind as [Hx Hrx].
    apply list_elem_of_In in Hx. apply (proj1 (sorted_elem _ _)) in Hx.
    cbn beta in Hrx.
    assert (x = file) as ->; [|done].
    apply String.leb_antisym.
    + apply Hle; [by apply sorted_elem|done].
    + apply Hleast; [exact Hx|exact Hrx].
  - eapply find_none in Hfind; [|by apply list_elem_of_In, sorted_elem].
    unfold recognized in Hrec. congruence.
Qed.

Lemma fileExt_least_witness :
  fileExt
    (snapshot_env ["apertium-xyz.xyz.lexc"; "apertium-xyz.xyz.txt";
                   "apertium-xyz.xyz.dix"]) "xyz"
  = "dix".
Proof.
  apply (fileExt_least
           (snapshot_env ["apertium-xyz.xyz.lexc"; "apertium-xyz.xyz.txt";
                          "apertium-xyz.xyz.dix"]) "xyz" "apertium-xyz.xyz.dix").
  - vm_compute. set_solver.
  - reflexivity.
  - intros other Hother Hrec. vm_compute in Hother.
    repeat (apply elem_of_cons in Hother as [->|Hother]); try reflexivity.
    by apply elem_of_nil in Hother.
Defined.

(** ** The history a run starts from *)

(** X8.  Of the entries of the persisted file, the first one under the
    name counts, also when the name is listed again further on. *)
Theorem find_history_first (before after : list EntityHistory)
    (e : EntityHistory) (x : string) (hist : option (list CommitRecord)) :
  (∀ d, d ∈ before → name d ≠ x) →
  name e = x →
  find_history (before ++ e :: after) x hist = Some (history e).
Proof.
  intros Hbefore He. revert hist.
  induction before as [|d before IH]; intros hist; cbn.
  - by rewrite He, String.eqb_refl.
  - assert (String.eqb (name d) x = false) as ->.
    { apply String.eqb_neq, Hbefore. by left. }
    apply IH. intros d' Hd'. apply Hbefore. by right.
Qed.

Lemma find_history_first_witness :
  find_history
    ([{| name := "tat"; history := [] |}]
     ++ {| name := "tat-kir"; history := [commit_abc] |}
        :: [{| name := "tat-kir"; history := [commit_def] |}])
    "tat-kir" None
  = Some [commit_abc].
Proof.
  apply (find_history_first [{| name := "tat"; history := [] |}]
           [{| name := "tat-kir"; history := [commit_def] |}]
           {| name := "tat-kir"; history := [commit_abc] |} "tat-kir" None).
  - intros d ->%list_elem_of_singleton. discriminate.
  - reflexivity.
Defined.

(** X9.  A file that lists other entities but not this one gives the
    empty history: the entity starts afresh. *)
Theorem find_history_absent (oldFile : list EntityHistory) (x : string)
    (hist : option (list CommitRecord)) :
  oldFile ≠ [] →
  (∀ d, d ∈ oldFile → name d ≠ x) →
  find_history oldFile x hist = Some [].
Proof.
  intros Hne Hall. destruct oldFile as [|d0 rest]; [done|]. clear Hne.
  revert d0 hist Hall. induction rest as [|d1 rest IH]; intros d0 hist Hall.
  - cbn. assert (String.eqb (name d0) x = false) as ->; [|done].
    apply String.eqb_neq, Hall. by left.
  - cbn [find_history].
    assert (String.eqb (name d0) x = false) as ->.
    { apply String.eqb_neq, Hall. by left. }
    apply (IH d1 (Some [])). intros d Hd. apply Hall. by right.
Qed.

Lemma find_history_absent_witness :
  find_history turkic_file "kaz" None = Some [].
Proof.
  apply (find_history_absent turkic_file "kaz" None); [done|].
  intros d Hd. repeat (apply elem_of_cons in Hd as [->|Hd]); try discriminate.
  by apply elem_of_nil in Hd.
Defined.

(** X10.  A persisted file that parses to the empty list leaves the
    variable [history] without a value, and the history of the language
    cannot be returned: whatever the log holds, [monoHistory] raises. *)
Theorem monoHistory_no_entries (env : Env) (language : string)
    (e : EntityHistory) :
  json_load env (language +:+ ".json") = Ok [] →
  monoHistory env language ≠ Ok e.
Proof.
  intros Hload H. unfold monoHistory, monoLoad in H.
  rewrite Hload, bind_Ok in H. cbn [find_history] in H.
  by apply monoMerge_inv in H as (h & raw & h' & Hh & _).
Qed.

Lemma monoHistory_no_entries_witness :
  monoHistory (turkic_env (Ok []) "" "" DixFailure) "tat"
  ≠ Ok {| name := "tat"; history := [] |}.
Proof.
  apply (monoHistory_no_entries (turkic_env (Ok []) "" "" DixFailure) "tat").
  reflexivity.
Defined.

(** X11.  With such an empty file the pair histories can only be
    returned when no package is selected at all: the first selected
    package finds [history] without a value and the run ends. *)
Theorem pairHistory_no_entries (env : Env) (language : string)
    (languages : list string) (packages : list Package)
    (out : list EntityHistory) :
  json_load env (language +:+ ".json") = Ok [] →
  pairHistory env language languages packages = Ok out →
  out = []
  ∧ List.filter (pairHistory_selected language languages) packages = [].
Proof.
  intros Hload H.
  assert (Hnone : List.filter (pairHistory_selected language languages) packages
                  = []).
  { unfold pairHistory in H. apply bind_Ok_inv in H as (st & Hrun & _).
    assert (Hvar : history_var {| store := []; history_var := None;
                                  langPackages := [] |} = None) by done.
    revert Hrun Hvar.
    generalize {| store := []; history_var := None; langPackages := [] |}.
    induction packages as [|p ps IH]; intros st0 Hrun Hvar; [done|].
    cbn [for_each] in Hrun. apply bind_Ok_inv in Hrun as (st1 & Hp & Hrun).
    cbn [List.filter].
    destruct (pairHistory_selected language languages p) eqn:Hsel.
    - apply (pairPackage_inv _ _ _ _ _ _ Hsel) in Hp
        as (raw & loaded & l & h' & _ & Hl & Hassign & _).
      unfold pairLoad in Hl. rewrite Hload in Hl. injection Hl as <-.
      cbn in Hassign. congruence.
    - rewrite pairPackage_skip in Hp by done. injection Hp as <-.
      by apply (IH st0). }
  split; [|done].
  apply pairHistory_names in H. rewrite Hnone in H.
  by apply fmap_nil_inv in H.
Qed.

Lemma pairHistory_no_entries_witness :
  [] = ([] : list EntityHistory)
  ∧ List.filter (pairHistory_selected "tat" turkic)
      [{| package_name := "apertium-tat"; package_topics := [] |}] = [].
Proof.
  apply (pairHistory_no_entries (turkic_env (Ok []) "" "" DixFailure)
           "tat" turkic
           [{| package_name := "apertium-tat"; package_topics := [] |}]);
    reflexivity.
Defined.

(** X12.  An unreachable clone ends the run before git is asked
    anything, with a message that names the repository and the
    language. *)
Theorem monoHistory_unable_to_clone (env : Env) (language : string)
    (hist : option (list CommitRecord)) :
  monoLoad env language = Ok hist →
  copy_mailmap env ("apertium-" +:+ language) = Raise FileNotFoundError →
  monoHistory env language
  = Raise (Exception
      ("Unable to clone apertium-" +:+ language +:+ ". Please check if "
       +:+ language
       +:+ " is a valid Apertium language and remove it from the json file if it isn't")).
Proof.
  intros Hload Hcopy. unfold monoHistory. rewrite Hload, bind_Ok.
  unfold monoMerge, prepRepo. rewrite Hcopy.
  by rewrite (rmPrefix_app language).
Qed.

Lemma monoHistory_unable_to_clone_witness :
  monoHistory
    {| json_load := λ _, Raise FileNotFoundError;
       copy_mailmap := λ _, Raise FileNotFoundError;
       glob := λ _ _, [];
       git_log := λ _ _ _ _, Ok "";
       requests_get := λ url, Ok url;
       requests_get_stats := λ _, Ok [];
       countLexcStems := λ _, Ok 7;
       countDixStems := λ _ _, Ok DixFailure;
       wiki_table := λ _, Ok None;
       read_mailmap := Ok "" |} "zzz"
  = Raise (Exception
      ("Unable to clone apertium-" +:+ "zzz" +:+ ". Please check if "
       +:+ "zzz"
       +:+ " is a valid Apertium language and remove it from the json file if it isn't")).
Proof.
  apply (monoHistory_unable_to_clone _ "zzz" (Some [])); reflexivity.
Defined.

(** ** What the merge appends *)

Lemma seen_app (h new : list CommitRecord) (s : string) :
  seen (h ++ new) s = seen h s || seen new s.
Proof. unfold seen. apply existsb_app. Qed.

Lemma classify_commit_sha (count : string → string → result (option Z))
    (h : list CommitRecord) (c : string) (o : outcome) :
  classify count h c = Ok o → ∃ s, commit_sha c = Some s.
Proof.
  unfold classify, commit_sha, index.
  destruct (Str.split "<>" c) as [|s [|a [|d rest]]]; try done. eauto.
Qed.

Lemma outcomes_fields (count : string → string → result (option Z))
    (h : list CommitRecord) (cs : list string) (os : list outcome) :
  outcomes count h cs = Ok os →
  ∀ r, r ∈ appended os →
    ∃ c p rest,
      c ∈ cs
      ∧ Str.split "<>" c = sha r :: author r :: date r :: p :: rest
      ∧ count (sha r) p = Ok (Some (stems r))
      ∧ seen h (sha r) = false.
Proof.
  revert h os. induction cs as [|c cs IH]; intros h os H r Hr; cbn in H.
  - injection H as <-. by apply elem_of_nil in Hr.
  - apply bind_Ok_inv in H as (o & Ho & H).
    apply bind_Ok_inv in H as (os' & Hos & H). injection H as <-.
    unfold appended in Hr. apply list_elem_of_omap in Hr as (o' & Ho' & Hr).
    apply elem_of_cons in Ho' as [->|Ho'].
    + destruct o as [| |r']; try done. injection Hr as ->.
      unfold classify, index in Ho.
      destruct (Str.split "<>" c) as [|s [|a [|d [|p rest]]]] eqn:Hc;
        try done; cbn in Ho.
      * by destruct (seen h s).
      * destruct (seen h s) eqn:Hs; [done|].
        destruct (count s p) as [[n|]|] eqn:Hn; try done.
        cbn in Ho. injection Ho as <-. cbn.
        exists c, p, rest. split; [by left|done].
    + destruct (IH _ _ Hos r) as (c' & p & rest & Hc' & Hsplit & Hn & Hs).
      { apply list_elem_of_omap. eauto. }
      exists c', p, rest. split; [by right|]. split; [done|]. split; [done|].
      destruct o as [| |r0]; cbn [extend] in Hs; try done.
      rewrite seen_app in Hs. by apply orb_false_iff in Hs as [-> _].
Qed.

(** X13.  What a merge adds to a history comes from the walk: the
    result is the history it started from followed by new records, and
    each new record carries the hash, the author and the date of a line
    of the log, under a hash the history did not hold, with the stems
    the counter gave for the file of that line. *)
Theorem merge_new_records (count : string → string → result (option Z))
    (h h' : list CommitRecord) (cs : list string) :
  mergeLoop count (Some h) cs = Ok (Some h') →
  ∃ new,
    h' = h ++ new
    ∧ ∀ r, r ∈ new →
        ∃ c p rest,
          c ∈ cs
          ∧ Str.split "<>" c = sha r :: author r :: date r :: p :: rest
          ∧ count (sha r) p = Ok (Some (stems r))
          ∧ seen h (sha r) = false.
Proof.
  rewrite mergeLoop_outcomes. intros H.
  apply bind_Ok_inv in H as (os & Hos & H). injection H as <-.
  exists (appended os). split; [done|]. by apply outcomes_fields.
Qed.

Lemma merge_new_records_witness :
  ∃ new,
    [commit_abc; {| sha := "def456"; author := "Y"; date := "d"; stems := 7 |}]
    = [commit_abc] ++ new
    ∧ ∀ r, r ∈ new →
        ∃ c p rest,
          c ∈ ["def456<>Y<>d<>f"; "abc123<>X<>d<>f"]
          ∧ Str.split "<>" c = sha r :: author r :: date r :: p :: rest
          ∧ (λ _ _ : string, Ok (Some 7)) (sha r) p = Ok (Some (stems r))
          ∧ seen [commit_abc] (sha r) = false.
Proof.
  apply (merge_new_records (λ _ _, Ok (Some 7)) [commit_abc] _
           ["def456<>Y<>d<>f"; "abc123<>X<>d<>f"]).
  reflexivity.
Defined.

Lemma outcomes_complete (count : string → string → result (option Z))
    (h : list CommitRecord) (cs : list string) (os : list outcome) :
  outcomes count h cs = Ok os →
  ∀ c, c ∈ cs →
    ∃ s, commit_sha c = Some s
         ∧ (seen (h ++ appended os) s = true ∨ ∃ p, count s p = Ok None).
Proof.
  revert h os. induction cs as [|c0 cs IH]; intros h os H c Hc; cbn in H.
  - by apply elem_of_nil in Hc.
  - apply bind_Ok_inv in H as (o & Ho & H).
    apply bind_Ok_inv in H as (os' & Hos & H). injection H as <-.
    apply elem_of_cons in Hc as [->|Hc].
    + unfold classify, index in Ho. unfold commit_sha.
      destruct (Str.split "<>" c0) as [|s [|a [|d rest]]]; try done.
      cbn in Ho. exists s. split; [done|].
      destruct (seen h s) eqn:Hs.
      * left. by rewrite seen_app, Hs.
      * destruct rest as [|p rest]; [done|]. cbn in Ho.
        destruct (count s p) as [[n|]|] eqn:Hn; try done; cbn in Ho.
        -- injection Ho as <-. left. unfold appended. cbn.
           rewrite seen_app. cbn. rewrite String.eqb_refl.
           by rewrite orb_true_r.
        -- right. eauto.
    + destruct (IH _ _ Hos c Hc) as (s & Hsha & Hs).
      exists s. split; [done|]. destruct Hs as [Hs|Hs]; [|by right]. left.
      destruct o as [| |r0]; try done. cbn in Hs.
      by rewrite <- app_assoc in Hs.
Qed.

(** X14.  A merge that returns has dealt with every commit of the walk:
    afterwards the hash of each line of the log is in the history,
    unless the counter failed on the file of that hash. *)
Theorem merge_complete (count : string → string → result (option Z))
    (h h' : list CommitRecord) (cs : list string) :
  mergeLoop count (Some h) cs = Ok (Some h') →
  ∀ c, c ∈ cs →
    ∃ s, commit_sha c = Some s
         ∧ (seen h' s = true ∨ ∃ p, count s p = Ok None).
Proof.
  rewrite mergeLoop_outcomes. intros H.
  apply bind_Ok_inv in H as (os & Hos & H). injection H as <-.
  by apply outcomes_complete.
Qed.

Lemma merge_complete_witness :
  ∃ s, commit_sha "def456<>Y<>d<>f" = Some s
       ∧ (seen [commit_abc;
                {| sha := "def456"; author := "Y"; date := "d"; stems := 7 |}]
            s = true
          ∨ ∃ p, (λ _ _ : string, Ok (Some 7)) s p
                 = (Ok None : result (option Z))).
Proof.
  apply (merge_complete (λ _ _, Ok (Some 7)) [commit_abc] _
           ["def456<>Y<>d<>f"; "abc123<>X<>d<>f"]).
  - reflexivity.
  - by left.
Defined.

Lemma outcomes_order (count : string → string → result (option Z))
    (h : list CommitRecord) (cs : list string) (os : list outcome) :
  outcomes count h cs = Ok os →
  sha <$> appended os `sublist_of` omap commit_sha cs.
Proof.
  revert h os. induction cs as [|c cs IH]; intros h os H; cbn in H.
  - injection H as <-. constructor.
  - apply bind_Ok_inv in H as (o & Ho & H).
    apply bind_Ok_inv in H as (os' & Hos & H). injection H as <-.
    specialize (IH _ _ Hos).
    destruct (classify_commit_sha _ _ _ _ Ho) as [s Hs].
    cbn [omap list_omap]. rewrite Hs.
    destruct o as [| |r]; unfold appended in *; cbn [omap list_omap].
    + by apply sublist_cons.
    + by apply sublist_cons.
    + rewrite fmap_cons. apply classify_appended in Ho.
      rewrite Hs in Ho. injection Ho as <-. by apply sublist_skip.
Qed.

(** X15.  New records are appended in the order of the log, newest
    first as git lists them: their hashes are the hashes of the log with
    some left out. *)
Theorem merge_order (count : string → string → result (option Z))
    (h h' : list CommitRecord) (cs : list string) :
  mergeLoop count (Some h) cs = Ok (Some h') →
  ∃ new, h' = h ++ new ∧ sha <$> new `sublist_of` omap commit_sha cs.
Proof.
  rewrite mergeLoop_outcomes. intros H.
  apply bind_Ok_inv in H as (os & Hos & H). injection H as <-.
  exists (appended os). split; [done|]. by eapply outcomes_order.
Qed.

Lemma merge_order_witness :
  ∃ new,
    [commit_abc;
     {| sha := "new2"; author := "Y"; date := "d"; stems := 7 |};
     {| sha := "new1"; author := "Y"; date := "d"; stems := 7 |}]
    = [commit_abc] ++ new
    ∧ sha <$> new
      `sublist_of` omap commit_sha
                     ["new2<>Y<>d<>f"; "abc123<>X<>d<>f"; "new1<>Y<>d<>f"].
Proof.
  apply (merge_order (λ _ _, Ok (Some 7)) [commit_abc] _
           ["new2<>Y<>d<>f"; "abc123<>X<>d<>f"; "new1<>Y<>d<>f"]).
  reflexivity.
Defined.

(** X16.  The history of a language only grows: what the persisted file
    records for the language is the start of what [monoHistory] returns,
    record for record, and the result bears the name of the language. *)
Theorem monoHistory_append_only (env : Env) (language : string)
    (oldFile : list EntityHistory) (h : list CommitRecord)
    (e : EntityHistory) :
  json_load env (language +:+ ".json") = Ok oldFile →
  find_history oldFile language None = Some h →
  monoHistory env language = Ok e →
  name e = language ∧ ∃ new, history e = h ++ new.
Proof.
  intros Hload Hfind H. unfold monoHistory, monoLoad in H.
  rewrite Hload, Hfind, bind_Ok in H.
  apply monoMerge_inv in H as (h0 & raw & h' & [= <-] & _ & Hloop & ->).
  split; [done|]. cbn. by eapply mergeLoop_prefix.
Qed.

Lemma monoHistory_append_only_witness :
  name {| name := "tat";
          history := [commit_abc;
                      {| sha := "def456"; author := "Y";
                         date := "2021-01-01T00:00:00Z"; stems := 7 |}] |}
  = "tat"
  ∧ ∃ new,
      history {| name := "tat";
                 history := [commit_abc;
                             {| sha := "def456"; author := "Y";
                                date := "2021-01-01T00:00:00Z"; stems := 7 |}] |}
      = [commit_abc] ++ new.
Proof.
  apply (monoHistory_append_only
           (turkic_env (Ok turkic_file)
              (git_entry "def456" "Y" "2021-01-01T00:00:00Z"
                 "apertium-tat.tat.lexc" +:+ entry_abc)
              "" DixFailure) "tat" turkic_file [commit_abc]);
    reflexivity.
Defined.

(** X17.  A log without commits is no error: the history the file
    records is returned as it is. *)
Theorem monoHistory_empty_log (env : Env) (language : string)
    (h : list CommitRecord) :
  monoLoad env language = Ok (Some h) →
  prepRepo env ("apertium-" +:+ language) = Ok () →
  git_log env "%H<>%aN<>%aI<>" true (monoFile env language)
    ("apertium-" +:+ language) = Ok "" →
  monoHistory env language = Ok {| name := language; history := h |}.
Proof.
  intros Hload Hprep Hlog. unfold monoHistory. rewrite Hload, bind_Ok.
  unfold monoMerge. by rewrite Hprep, bind_Ok, Hlog.
Qed.

Lemma monoHistory_empty_log_witness :
  monoHistory (turkic_env (Ok turkic_file) "" "" DixFailure) "tat"
  = Ok {| name := "tat"; history := [commit_abc] |}.
Proof.
  apply (monoHistory_empty_log (turkic_env (Ok turkic_file) "" "" DixFailure)
           "tat" [commit_abc]); reflexivity.
Defined.

(** X18.  A download that fails is not a counting failure: when the file
    of a commit that is not recorded yet cannot be fetched, the walk of
    the language ends with the error of the download, and later commits
    are not looked at. *)
Theorem fetch_failure_aborts (env : Env) (language extension : string)
    (c s a d p : string) (rest after : list string)
    (h : list CommitRecord) (e : exn) :
  Str.split "<>" c = s :: a :: d :: p :: rest →
  seen h s = false →
  requests_get env (monoURL language s p) = Raise e →
  mergeLoop (monoCount env language extension) (Some h) (c :: after) = Raise e.
Proof.
  intros Hc Hs Hget. unfold mergeLoop. cbn [for_each].
  unfold mergeCommit, index. rewrite Hc. cbn. rewrite Hs.
  unfold monoCount. by rewrite Hget.
Qed.

Lemma fetch_failure_aborts_witness :
  let env :=
    {| json_load := λ _, Raise FileNotFoundError;
       copy_mailmap := λ _, Ok ();
       glob := λ _ _, ["apertium-tat.tat.lexc"];
       git_log := λ _ _ _ _, Ok "";
       requests_get := λ _, Raise ConnectionError;
       requests_get_stats := λ _, Ok [];
       countLexcStems := λ _, Ok 7;
       countDixStems := λ _ _, Ok DixFailure;
       wiki_table := λ _, Ok None;
       read_mailmap := Ok "" |} in
  mergeLoop (monoCount env "tat" "lexc") (Some [])
    ("abc123<>X<>d<>f" :: ["def456<>Y<>d<>f"])
  = Raise ConnectionError.
Proof.
  intros env.
  apply (fetch_failure_aborts env "tat" "lexc" "abc123<>X<>d<>f"
           "abc123" "X" "d" "f" []); reflexivity.
Defined.

(** X19.  Of the errors of the lexc counter only its abort is taken for
    a counting failure: any other error it raises ends the walk. *)
Theorem lexc_error_aborts (env : Env) (language : string)
    (c s a d p dataFile : string) (rest after : list string)
    (h : list CommitRecord) (e : exn) :
  Str.split "<>" c = s :: a :: d :: p :: rest →
  seen h s = false →
  requests_get env (monoURL language s p) = Ok dataFile →
  countLexcStems env dataFile = Raise e →
  e ≠ SystemExit →
  mergeLoop (monoCount env language "lexc") (Some h) (c :: after) = Raise e.
Proof.
  intros Hc Hs Hget Hlexc He. unfold mergeLoop. cbn [for_each].
  unfold mergeCommit, index. rewrite Hc. cbn. rewrite Hs.
  unfold monoCount. rewrite Hget, bind_Ok, Hlexc. cbn. by destruct e.
Qed.

Lemma lexc_error_aborts_witness :
  let env :=
    {| json_load := λ _, Raise FileNotFoundError;
       copy_mailmap := λ _, Ok ();
       glob := λ _ _, ["apertium-tat.tat.lexc"];
       git_log := λ _ _ _ _, Ok "";
       requests_get := λ url, Ok url;
       requests_get_stats := λ _, Ok [];
       countLexcStems := λ _, Raise TypeError;
       countDixStems := λ _ _, Ok DixFailure;
       wiki_table := λ _, Ok None;
       read_mailmap := Ok "" |} in
  mergeLoop (monoCount env "tat" "lexc") (Some [])
    ("abc123<>X<>d<>f" :: ["def456<>Y<>d<>f"])
  = Raise TypeError.
Proof.
  intros env.
  apply (lexc_error_aborts env "tat" "abc123<>X<>d<>f"
           "abc123" "X" "d" "f" (monoURL "tat" "abc123" "f") []);
    try reflexivity.
  discriminate.
Defined.

Lemma mergeLoop_idempotent_witness :
  mergeLoop (λ s _, if String.eqb s "bad789" then Ok None else Ok (Some 7))
    (Some [commit_abc;
           {| sha := "def456"; author := "Y"; date := "d"; stems := 7 |}])
    ["def456<>Y<>d<>f"; "bad789<>Z<>d<>f"; "abc123<>X<>d<>f"]
  = Ok (Some [commit_abc;
              {| sha := "def456"; author := "Y"; date := "d"; stems := 7 |}]).
Proof.
  apply (mergeLoop_idempotent
           (λ s _, if String.eqb s "bad789" then Ok None else Ok (Some 7))
           [commit_abc]).
  reflexivity.
Defined.

Lemma langHistory_twice_witness :
  langHistory
    (turkic_env
       (Ok [{| name := "tat"; history := [commit_abc] |};
            {| name := "tat-kir";
               history := [{| sha := "abc123"; author := "X";
                              date := "2020-01-01T00:00:00Z"; stems := 9 |}] |}])
       entry_abc entry_abc (DixStems 9))
    "tat" turkic turkic_packages
  = Ok [{| name := "tat"; history := [commit_abc] |};
        {| name := "tat-kir";
           history := [{| sha := "abc123"; author := "X";
                          date := "2020-01-01T00:00:00Z"; stems := 9 |}] |}].
Proof.
  apply (langHistory_twice
           (turkic_env (Ok [{| name := "tat"; history := [commit_abc] |}])
              entry_abc entry_abc (DixStems 9))
           _ "tat" turkic turkic_packages).
  - reflexivity.
  - by apply (bool_decide_unpack _).
  - reflexivity.
  - reflexivity.
  - exists entry_abc. split; [reflexivity|].
    intros c Hc. vm_compute in Hc. apply list_elem_of_singleton in Hc as ->.
    by exists "abc123".
  - intros p Hp Hsel. apply elem_of_cons in Hp as [->|Hp].
    + split; [reflexivity|]. exists entry_abc. split; [reflexivity|].
      intros c Hc. vm_compute in Hc. apply list_elem_of_singleton in Hc as ->.
      by exists "abc123".
    + apply list_elem_of_singleton in Hp as ->. vm_compute in Hsel.
      discriminate.
Defined.

(** ** The entries of the outputs *)

(** X22.  What a run persists for a language starts with the history of
    the language itself, under its code, and goes on with one entry for
    each selected pair package, under the name of the pair and in the
    order of the catalog. *)
Theorem langHistory_names (env : Env) (lang : string) (langs : list string)
    (allPackages : list Package) (out : list EntityHistory) :
  langHistory env lang langs allPackages = Ok out →
  name <$> out
  = lang :: ((λ p, rmPrefix (package_name p))
               <$> List.filter (pairHistory_selected lang langs) allPackages).
Proof.
  unfold langHistory. intros H.
  apply bind_Ok_inv in H as (mono & Hmono & H).
  apply bind_Ok_inv in H as (pairs & Hpairs & H). injection H as <-.
  rewrite fmap_cons, (pairHistory_names _ _ _ _ _ Hpairs). f_equal.
  unfold monoHistory in Hmono. apply bind_Ok_inv in Hmono as (hist & _ & Hmono).
  by apply monoMerge_inv in Hmono as (h & raw & h' & _ & _ & _ & ->).
Qed.

Lemma langHistory_names_witness :
  name <$> turkic_file
  = "tat" :: ((λ p, rmPrefix (package_name p))
                <$> List.filter (pairHistory_selected "tat" turkic)
                      turkic_packages).
Proof.
  apply (langHistory_names
           (turkic_env (Ok turkic_file) entry_abc entry_def (DixStems 9))).
  reflexivity.
Defined.

(** X23.  The snapshot of the pairs has one record for each package it
    selects, in the order of the catalog, and the record lists the set
    of the codes of the package. *)
Theorem pairData_entries (env : Env) (packages : list Package)
    (languages : list string) (out : list PairRecord) :
  pairData env packages languages = Ok out →
  langs <$> out
  = (λ p, set (pair_codes p))
      <$> List.filter (pairData_selected languages) packages.
Proof.
  unfold pairData. intros H. apply bind_Ok_inv in H as (st & Hrun & H).
  injection H as <-. by apply for_each_pairData_langs in Hrun.
Qed.

Lemma pairData_entries_witness :
  langs <$> [{| langs := set ["tat"; "kir"]; pair_location := "trunk";
                pair_stems := 300 |}]
  = (λ p, set (pair_codes p))
      <$> List.filter (pairData_selected turkic) turkic_packages.
Proof.
  apply (pairData_entries (snapshot_env [])). vm_compute. reflexivity.
Defined.

Lemma monoPackage_skip (env : Env) (languages : list string)
    (langFamily : string) (updatemailmap : bool) (st : MonoState)
    (p : Package) :
  monoData_selected languages p = false →
  monoPackage env languages langFamily updatemailmap st p = Ok st.
Proof. unfold monoData_selected, monoPackage. by intros ->. Qed.

Lemma for_each_monoData_langs (env : Env) (languages : list string)
    (langFamily : string) (updatemailmap : bool) (packages : list Package)
    (st st' : MonoState) :
  for_each (monoPackage env languages langFamily updatemailmap) st packages
  = Ok st' →
  lang <$> mono_data st'
  = (lang <$> mono_data st)
    ++ ((λ p, rmPrefix (package_name p))
          <$> List.filter (monoData_selected languages) packages).
Proof.
  revert st. induction packages as [|p ps IH]; intros st H.
  - cbn in H. injection H as <-. by rewrite app_nil_r.
  - cbn [for_each] in H. apply bind_Ok_inv in H as (st1 & Hp & H).
    rewrite (IH _ H). cbn [List.filter].
    destruct (monoData_selected languages p) eqn:Hsel.
    + apply (monoPackage_appends _ _ _ _ _ _ _ Hsel) in Hp as (r & -> & Hr).
      by rewrite fmap_app, fmap_cons, <- app_assoc, Hr.
    + rewrite monoPackage_skip in Hp by done. by injection Hp as <-.
Qed.

(** X24.  The snapshot of the monolingual dictionaries has one record
    for each package it selects, in the order of the catalog, under the
    code that follows apertium- in the name of the package. *)
Theorem monoData_entries (env : Env) (packages : list Package)
    (languages : list string) (langFamily : string) (updatemailmap : bool)
    (out : list MonoRecord) :
  monoData env packages languages langFamily updatemailmap = Ok out →
  lang <$> out
  = (λ p, rmPrefix (package_name p))
      <$> List.filter (monoData_selected languages) packages.
Proof.
  unfold monoData. intros H. apply bind_Ok_inv in H as (st & Hrun & H).
  injection H as <-. by apply for_each_monoData_langs in Hrun.
Qed.

Lemma monoData_entries_witness :
  lang <$> [{| lang := "xyz"; state := "six"; mono_stems := 1200;
               mono_location := "apertium-xyz (incubator)";
               contributors := [("Ann", 2); ("Bob", 1)] |}]
  = (λ p, rmPrefix (package_name p))
      <$> List.filter (monoData_selected ["xyz"])
            [{| package_name := "apertium-tat-kir"; package_topics := [] |};
             package_xyz].
Proof.
  apply (monoData_entries (snapshot_env ["apertium-xyz.xyz.dix"]) _ _
           "turkic" false).
  reflexivity.
Defined.

(** ** Locations *)

Lemma find_location_known (locations topics : list string)
    (location : option string) (l : string) :
  find_location locations topics location = Some l →
  l ∈ locations ∨ location = Some l.
Proof.
  induction topics as [|topic topics IH]; cbn [find_location]; [by right|].
  destruct (mem (rmPrefix topic) locations) eqn:Hmem; [|done].
  intros [= <-]. left. unfold mem in Hmem.
  apply existsb_exists in Hmem as (y & Hy & ->%String.eqb_eq).
  by apply list_elem_of_In.
Qed.

Lemma find_location_none (locations topics : list string)
    (location : option string) :
  (∀ topic, topic ∈ topics → mem (rmPrefix topic) locations = false) →
  find_location locations topics location = location.
Proof.
  induction topics as [|topic topics IH]; intros Hnone; [done|].
  cbn [find_location]. rewrite Hnone by by left. apply IH. intros t Ht. apply Hnone. by right.
Qed.

Lemma pairDataPackage_selected (env : Env) (languages : list string)
    (st : PairDataState) (p : Package) :
  pairData_selected languages p = true →
  pairDataPackage env languages st p
  = (get_stats env (bidix_stats_url p) ≫= λ stats,
     read (find_location pairLocations (package_topics p)
             (pair_location_var st)) ≫= λ location,
     read (find_stat "Entries" stats (pair_stems_var st)) ≫= λ n,
     Ok {| pair_data := pair_data st
             ++ [{| langs := set (pair_codes p); pair_location := location;
                    pair_stems := n |}];
           pair_location_var :=
             find_location pairLocations (package_topics p)
               (pair_location_var st);
           pair_stems_var := find_stat "Entries" stats (pair_stems_var st) |}).
Proof.
  unfold pairData_selected, pair_kept, pair_codes, pairDataPackage.
  destruct (match_pair (package_name p)); [|done]. cbn [negb andb].
  destruct (bool_decide _); [|done].
  by destruct (String.eqb _ "ita-srd").
Qed.

(** X25.  Every record of the snapshot of the pairs is located in one of
    the four known places (incubator, nursery, staging, trunk), also
    when the place was not read off the topics of its own package. *)
Theorem pairData_locations (env : Env) (packages : list Package)
    (languages : list string) (out : list PairRecord) :
  pairData env packages languages = Ok out →
  Forall (λ r, pair_location r ∈ pairLocations) out.
Proof.
  unfold pairData. intros H. apply bind_Ok_inv in H as (st & Hrun & H).
  injection H as <-.
  apply (for_each_invariant _
           (λ st, Forall (λ r, pair_location r ∈ pairLocations) (pair_data st)
                  ∧ ∀ l, pair_location_var st = Some l → l ∈ pairLocations))
    in Hrun.
  - by destruct Hrun.
  - intros s p s' _ [Hdata Hvar] Hp.
    destruct (pairData_selected languages p) eqn:Hsel; cycle 1.
    { rewrite pairDataPackage_skip in Hp by done. by injection Hp as <-. }
    rewrite pairDataPackage_selected in Hp by done.
    apply bind_Ok_inv in Hp as (stats & _ & Hp).
    apply bind_Ok_inv in Hp as (location & Hloc & Hp).
    apply bind_Ok_inv in Hp as (n & _ & Hp). injection Hp as <-. cbn.
    destruct (find_location _ _ _) as [l|] eqn:Hfind; [|done].
    injection Hloc as ->.
    assert (location ∈ pairLocations).
    { apply find_location_known in Hfind as [?|?]; [done|by apply Hvar]. }
    split; [|by intros l [= <-]].
    apply Forall_app. split; [done|]. by apply Forall_singleton.
  - split; [constructor|done].
Qed.

Lemma pairData_locations_witness :
  Forall (λ r, pair_location r ∈ pairLocations)
    [{| langs := set ["tat"; "kir"]; pair_location := "trunk";
        pair_stems := 300 |}].
Proof.
  apply (pairData_locations (snapshot_env []) turkic_packages turkic).
  vm_compute. reflexivity.
Defined.

(** X26.  A pair package without a topic of a known place takes the
    place of the last package that had one; when no package before it
    had one, the snapshot ends with [UnboundLocalError]. *)
Theorem pairData_location_inherited (env : Env) (languages : list string)
    (st : PairDataState) (p : Package) (stats : list Statistic) (n : Z) :
  pairData_selected languages p = true →
  (∀ topic, topic ∈ package_topics p →
     mem (rmPrefix topic) pairLocations = false) →
  get_stats env (bidix_stats_url p) = Ok stats →
  find_stat "Entries" stats (pair_stems_var st) = Some n →
  pairDataPackage env languages st p
  = match pair_location_var st with
    | Some location =>
        Ok {| pair_data := pair_data st
                ++ [{| langs := set (pair_codes p);
                       pair_location := location; pair_stems := n |}];
              pair_location_var := Some location;
              pair_stems_var := Some n |}
    | None => Raise UnboundLocalError
    end.
Proof.
  intros Hsel Hnone Hstats Hn.
  rewrite pairDataPackage_selected by done.
  rewrite Hstats, bind_Ok, find_location_none, Hn by done.
  by destruct (pair_location_var st).
Qed.

Lemma pairData_location_inherited_witness :
  pairDataPackage (snapshot_env []) turkic
    {| pair_data := []; pair_location_var := Some "trunk";
       pair_stems_var := None |}
    {| package_name := "apertium-kir-tat";
       package_topics := ["unrelated-topic"] |}
  = Ok {| pair_data := [{| langs := set ["kir"; "tat"];
                           pair_location := "trunk"; pair_stems := 300 |}];
          pair_location_var := Some "trunk";
          pair_stems_var := Some 300 |}.
Proof.
  apply (pairData_location_inherited (snapshot_env []) turkic
           {| pair_data := []; pair_location_var := Some "trunk";
              pair_stems_var := None |}
           {| package_name := "apertium-kir-tat";
              package_topics := ["unrelated-topic"] |}
           [{| stat_kind := "Stems"; value := 1200 |};
            {| stat_kind := "Entries"; value := 300 |}] 300).
  - vm_compute. reflexivity.
  - intros topic ->%list_elem_of_singleton. reflexivity.
  - reflexivity.
  - reflexivity.
Defined.

(** Two packages of the same pair, the second without a known topic. *)
Example pairData_location_run :
  pairData (snapshot_env [])
    [{| package_name := "apertium-tat-kir"; package_topics := ["apertium-trunk"] |};
     {| package_name := "apertium-kir-tat"; package_topics := ["unrelated-topic"] |}]
    turkic
  = Ok [{| langs := set ["tat"; "kir"]; pair_location := "trunk";
           pair_stems := 300 |};
        {| langs := set ["kir"; "tat"]; pair_location := "trunk";
           pair_stems := 300 |}]
  ∧ pairData (snapshot_env [])
      [{| package_name := "apertium-kir-tat";
          package_topics := ["unrelated-topic"] |}] turkic
    = Raise UnboundLocalError.
Proof. split; vm_compute; reflexivity. Qed.

(** ** The stats service, the wiki and the mailmap *)

(** X27.  A response of the stats service without its statistics ends
    the snapshot at the first selected package it concerns, with the
    advice to try again later; no record is returned, whatever the
    packages before it gave. *)
Theorem stats_updating (env : Env) (languages : list string) :
  (∀ before p after langFamily updatemailmap out0,
     monoData env before languages langFamily updatemailmap = Ok out0 →
     monoData_selected languages p = true →
     prepRepo env (package_name p) = Ok () →
     requests_get_stats env (mono_stats_url env p) = Raise KeyError →
     monoData env (before ++ p :: after) languages langFamily updatemailmap
     = Raise (Exception
         "The stats-service seems to be updating at the moment. Please try again later"))
  ∧ (∀ before p after out0,
       pairData env before languages = Ok out0 →
       pairData_selected languages p = true →
       requests_get_stats env (bidix_stats_url p) = Raise KeyError →
       pairData env (before ++ p :: after) languages
       = Raise (Exception
           "The stats-service seems to be updating at the moment. Please try again later")).
Proof.
  split.
  - intros before p after langFamily updatemailmap out0 Hbefore Hsel Hprep Hstats.
    unfold monoData in *. apply bind_Ok_inv in Hbefore as (st & Hrun & _).
    rewrite for_each_app, Hrun, bind_Ok. cbn [for_each].
    unfold monoPackage. unfold monoData_selected in Hsel. rewrite Hsel.
    cbn [negb]. rewrite Hprep, bind_Ok. unfold get_stats.
    unfold mono_stats_url in Hstats. by rewrite Hstats.
  - intros before p after out0 Hbefore Hsel Hstats.
    unfold pairData in *. apply bind_Ok_inv in Hbefore as (st & Hrun & _).
    rewrite for_each_app, Hrun, bind_Ok. cbn [for_each].
    rewrite pairDataPackage_selected by done.
    unfold get_stats. by rewrite Hstats.
Qed.

Lemma stats_updating_witness :
  let env :=
    {| json_load := λ _, Raise FileNotFoundError;
       copy_mailmap := λ _, Ok ();
       glob := λ _ _, ["apertium-xyz.xyz.dix"];
       git_log := λ _ _ _ _, Ok "";
       requests_get := λ url, Ok url;
       requests_get_stats := λ _, Raise KeyError;
       countLexcStems := λ _, Ok 7;
       countDixStems := λ _ _, Ok DixFailure;
       wiki_table := λ _, Ok None;
       read_mailmap := Ok "" |} in
  monoData env ([] ++ package_xyz :: []) ["xyz"] "turkic" false
  = Raise (Exception
      "The stats-service seems to be updating at the moment. Please try again later").
Proof.
  intros env.
  apply (proj1 (stats_updating env ["xyz"]) [] package_xyz [] "turkic" false []);
    reflexivity.
Defined.

(** X28.  A language that no row of the wiki table is named after gets
    the state unknown, as soon as the table has a row below its two
    header rows. *)
Theorem find_state_unknown (language : string) (col : nat)
    (rows : list Element) (state : option string) :
  rows ≠ [] →
  (∀ r, r ∈ rows → ∃ n, row_name r = Ok n ∧ n ≠ language) →
  find_state language col rows state = Ok (Some "unknown").
Proof.
  intros Hne Hrows. destruct rows as [|r0 rows]; [done|]. clear Hne.
  revert r0 state Hrows.
  induction rows as [|r1 rows IH]; intros r0 state Hrows;
    cbn [find_state];
    (destruct (Hrows r0) as (n & -> & Hn%String.eqb_neq); [by left|]);
    rewrite bind_Ok, Hn.
  - done.
  - apply (IH r1 (Some "unknown")). intros r Hr. apply Hrows. by right.
Qed.

Lemma find_state_unknown_witness :
  find_state "kaz" (stateCol "turkic")
    [wiki_row "apertium-gle"; wiki_row "apertium-xyz"] None
  = Ok (Some "unknown").
Proof.
  apply (find_state_unknown "kaz" (stateCol "turkic")
           [wiki_row "apertium-gle"; wiki_row "apertium-xyz"] None); [done|].
  intros r Hr. apply elem_of_cons in Hr as [->|Hr].
  - exists "gle". split; [reflexivity|discriminate].
  - apply list_elem_of_singleton in Hr as ->.
    exists "xyz". split; [reflexivity|discriminate].
Defined.

Lemma count_one_keys (x y : string) (c : list (string * Z)) :
  y ∈ (count_one x c).*1 ↔ y = x ∨ y ∈ c.*1.
Proof.
  induction c as [|[z n] c IH]; cbn [count_one].
  - cbn. rewrite list_elem_of_singleton. split; [auto|].
    by intros [?|?%elem_of_nil].
  - destruct (String.eqb x z) eqn:Hxz.
    + apply String.eqb_eq in Hxz as ->. cbn. rewrite !elem_of_cons. tauto.
    + cbn. rewrite !elem_of_cons, IH. tauto.
Qed.

Lemma count_one_NoDup (x : string) (c : list (string * Z)) :
  NoDup c.*1 → NoDup (count_one x c).*1.
Proof.
  induction c as [|[z n] c IH]; cbn [count_one]; intros Hnd.
  - cbn. apply NoDup_singleton.
  - destruct (String.eqb x z) eqn:Hxz; [done|].
    cbn in *. apply NoDup_cons in Hnd as [Hz Hnd]. apply NoDup_cons.
    split; [|by apply IH]. rewrite count_one_keys.
    intros [->|?]; [|done]. by rewrite String.eqb_refl in Hxz.
Qed.

Lemma count_one_total (x : string) (c : list (string * Z)) :
  total (count_one x c) = total c + 1.
Proof.
  induction c as [|[z n] c IH]; cbn [count_one]; [done|].
  destruct (String.eqb x z); unfold total in *; cbn [foldr snd] in *; lia.
Qed.

Lemma value_of_count_one (x y : string) (c : list (string * Z)) :
  value_of (count_one x c) y
  = if String.eqb y x then Some (default 0 (value_of c x) + 1)
    else value_of c y.
Proof.
  induction c as [|[z n] c IH]; cbn [count_one value_of].
  - by destruct (String.eqb y x).
  - destruct (String.eqb x z) eqn:Hxz; cbn [value_of].
    + apply String.eqb_eq in Hxz as ->. by destruct (String.eqb y z).
    + rewrite IH. destruct (String.eqb y z) eqn:Hyz; [|done].
      apply String.eqb_eq in Hyz as ->.
      by rewrite String.eqb_sym, Hxz.
Qed.

Lemma value_of_keys (c : list (string * Z)) (y : string) :
  y ∈ c.*1 ↔ is_Some (value_of c y).
Proof.
  induction c as [|[z n] c IH]; cbn [value_of].
  - split; [by intros ?%elem_of_nil|by intros [? ?]].
  - cbn. rewrite elem_of_cons, IH. destruct (String.eqb y z) eqn:Hyz.
    + apply String.eqb_eq in Hyz as ->. split; eauto.
    + apply String.eqb_neq in Hyz. split; [by intros [?|?]|auto].
Qed.

Lemma value_of_elem (c : list (string * Z)) (y : string) (n : Z) :
  NoDup c.*1 → (y, n) ∈ c ↔ value_of c y = Some n.
Proof.
  induction c as [|[z m] c IH]; cbn [value_of]; intros Hnd.
  - split; [by intros ?%elem_of_nil|done].
  - cbn in Hnd. apply NoDup_cons in Hnd as [Hz Hnd].
    rewrite elem_of_cons, (IH Hnd). destruct (String.eqb y z) eqn:Hyz.
    + apply String.eqb_eq in Hyz as ->. split.
      * intros [[= ->]|Hin]; [done|].
        destruct Hz. apply value_of_keys. eauto.
      * intros [= ->]. by left.
    + apply String.eqb_neq in Hyz. split; [|auto].
      by intros [[= -> ->]|?].
Qed.

Lemma lines_of_cons (y x : string) (l : list string) :
  lines_of y (x :: l) = (if String.eqb y x then 1 else 0) + lines_of y l.
Proof.
  unfold lines_of. cbn [List.filter].
  destruct (String.eqb y x); cbn [length]; lia.
Qed.

Lemma lines_of_zero (y : string) (l : list string) :
  lines_of y l = 0 ↔ y ∉ l.
Proof.
  induction l as [|x l IH]; [by split; [intros _ ?%elem_of_nil|]|].
  rewrite lines_of_cons, elem_of_cons.
  assert (0 ≤ lines_of y l) by (unfold lines_of; lia).
  destruct (String.eqb y x) eqn:Hyx.
  - apply String.eqb_eq in Hyx as ->. split; [lia|]. intros Hnot.
    destruct Hnot. by left.
  - apply String.eqb_neq in Hyx. rewrite Z.add_0_l, IH. tauto.
Qed.

Lemma Counter_from (c : list (string * Z)) (l : list string) :
  NoDup c.*1 →
  NoDup (foldl (λ c x, count_one x c) c l).*1
  ∧ total (foldl (λ c x, count_one x c) c l) = total c + Z.of_nat (length l)
  ∧ ∀ y, value_of (foldl (λ c x, count_one x c) c l) y
         = if decide (lines_of y l = 0) then value_of c y
           else Some (default 0 (value_of c y) + lines_of y l).
Proof.
  revert c. induction l as [|x l IH]; intros c Hnd; cbn [foldl].
  - split; [done|]. split; [cbn; lia|done].
  - destruct (IH (count_one x c)) as (Hnd' & Htot & Hval);
      [by apply count_one_NoDup|].
    split; [done|]. split.
    { rewrite Htot, count_one_total. cbn [length]. lia. }
    intros y. rewrite Hval, value_of_count_one, lines_of_cons.
    assert (0 ≤ lines_of y l) by (unfold lines_of; lia).
    destruct (String.eqb y x) eqn:Hyx.
    + apply String.eqb_eq in Hyx as ->.
      destruct (decide (lines_of x l = 0)) as [->|Hl];
        (destruct (decide _) as [?|_]; [lia|]); cbn [default from_option];
        unfold id; f_equal; lia.
    + rewrite Z.add_0_l. by destruct (decide (lines_of y l = 0)).
Qed.

(** X29.  The contributors of a dictionary are its authors, each once,
    with the number of their commits: an author is listed exactly when a
    line of the log bears the name, the value is the number of those
    lines, and the values add up to the length of the log. *)
Theorem Counter_contributors (authors : list string) :
  NoDup (Counter authors).*1
  ∧ total (Counter authors) = Z.of_nat (length authors)
  ∧ (∀ user, user ∈ (Counter authors).*1 ↔ user ∈ authors)
  ∧ (∀ user n, (user, n) ∈ Counter authors ↔
       user ∈ authors ∧ n = lines_of user authors).
Proof.
  unfold Counter.
  destruct (Counter_from [] authors) as (Hnd & Htot & Hval); [constructor|].
  split; [done|]. split; [by rewrite Htot|]. split.
  - intros user. rewrite value_of_keys, Hval.
    destruct (decide _) as [Hz|Hz].
    + apply lines_of_zero in Hz. split; [by intros [? ?]|done].
    + split; [|eauto]. intros _.
      destruct (decide (user ∈ authors)) as [?|Hnot]; [done|].
      by apply lines_of_zero in Hnot.
  - intros user n. rewrite (value_of_elem _ _ _ Hnd), Hval.
    destruct (decide _) as [Hz|Hz].
    + apply lines_of_zero in Hz. split; [done|by intros [? _]].
    + cbn [value_of default]. rewrite Z.add_0_l. split.
      * intros [= <-]. split; [|done].
        destruct (decide (user ∈ authors)) as [?|Hnot]; [done|].
        by apply lines_of_zero in Hnot.
      * by intros [_ ->].
Qed.

Lemma for_each_alike {S S' A : Type} (R : S → S' → Prop)
    (f : S → A → result S) (g : S' → A → result S') (l : list A)
    (s : S) (s' : S') :
  (∀ s s' x, x ∈ l → R s s' → alike R (f s x) (g s' x)) →
  R s s' → alike R (for_each f s l) (for_each g s' l).
Proof.
  revert s s'. induction l as [|x l IH]; intros s s' Hstep Hs; [done|].
  cbn [for_each]. specialize (Hstep s s' x (list_elem_of_here _ _) Hs) as Hx.
  destruct (f s x) as [s1|e], (g s' x) as [s1'|e']; try done.
  rewrite !bind_Ok. apply IH; [|done].
  intros s0 s0' y Hy. apply Hstep. by right.
Qed.

Lemma auditMailmap_ok (env : Env) (language file dirName : string) :
  (∀ file dir, ∃ raw, git_log env "<%aE> %aN %cI %h" false file dir = Ok raw) →
  (∃ mailmap, read_mailmap env = Ok mailmap) →
  ∃ audit, auditMailmap env language file dirName = Ok audit.
Proof.
  intros Hlog [mailmap Hmap]. destruct (Hlog file dirName) as [raw Hraw].
  unfold auditMailmap. rewrite Hraw, bind_Ok, Hmap, bind_Ok. eauto.
Qed.

Lemma monoPackage_audit (env : Env) (languages : list string)
    (langFamily : string) (st st' : MonoState) (p : Package) :
  (∀ file dir, ∃ raw, git_log env "<%aE> %aN %cI %h" false file dir = Ok raw) →
  (∃ mailmap, read_mailmap env = Ok mailmap) →
  same_data st st' →
  alike same_data (monoPackage env languages langFamily true st p)
    (monoPackage env languages langFamily false st' p).
Proof.
  intros Hlog Hmap (Hd & Hs & Hl & Hst). unfold monoPackage.
  destruct (negb _); [done|].
  destruct (prepRepo env (package_name p)) as [[]|]; [|done].
  rewrite !bind_Ok.
  destruct (get_stats env _) as [stats|]; [|done]. rewrite !bind_Ok.
  destruct (git_log env "%aN" false _ _) as [lines|]; [|done].
  rewrite !bind_Ok.
  destruct (auditMailmap_ok env (rmPrefix (package_name p))
              (monoFile env (rmPrefix (package_name p))) (package_name p)
              Hlog Hmap) as [audit ->].
  rewrite !bind_Ok.
  destruct (pop _) as [authors|]; [|done]. rewrite !bind_Ok.
  destruct (wiki_table env _) as [table|]; [|done]. rewrite !bind_Ok.
  destruct (match table with Some _ => _ | None => _ end) as [rows|]; [|done].
  rewrite !bind_Ok. rewrite Hs, Hl, Hst, Hd.
  destruct (find_state _ _ rows (state_var st')) as [state|]; [|done].
  rewrite !bind_Ok.
  destruct (read state) as [state'|]; [|done]. rewrite !bind_Ok.
  destruct (read (find_stat _ _ _)) as [stems'|]; [|done]. rewrite !bind_Ok.
  destruct (read (find_location _ _ _)) as [location'|]; [|done].
  rewrite !bind_Ok. by cbn.
Qed.

(** X30.  The audit of the mailmap only prints: when the log of the
    committers and the mailmap can be read, the snapshot returned with
    the audit is the snapshot returned without it, record for record. *)
Theorem monoData_audit_independent (env : Env) (packages : list Package)
    (languages : list string) (langFamily : string) :
  (∀ file dir, ∃ raw, git_log env "<%aE> %aN %cI %h" false file dir = Ok raw) →
  (∃ mailmap, read_mailmap env = Ok mailmap) →
  monoData env packages languages langFamily true
  = monoData env packages languages langFamily false.
Proof.
  intros Hlog Hmap. unfold monoData.
  pose proof (for_each_alike same_data
                (monoPackage env languages langFamily true)
                (monoPackage env languages langFamily false) packages
                {| mono_data := []; stems_var := None; location_var := None;
                   state_var := None; printed := [] |}
                {| mono_data := []; stems_var := None; location_var := None;
                   state_var := None; printed := [] |}) as Hrun.
  destruct (for_each (monoPackage env languages langFamily true) _ _)
    as [st|e],
    (for_each (monoPackage env languages langFamily false) _ _)
    as [st'|e'].
  all: (specialize (Hrun (λ s s' x _, monoPackage_audit env languages
                            langFamily s s' x Hlog Hmap)));
    (specialize (Hrun (conj eq_refl (conj eq_refl (conj eq_refl eq_refl)))));
    cbn in Hrun; try done.
  - rewrite !bind_Ok. f_equal. by destruct Hrun.
  - by rewrite Hrun.
Qed.

Lemma monoData_audit_independent_witness :
  monoData (snapshot_env ["apertium-xyz.xyz.dix"]) [package_xyz] ["xyz"]
    "turkic" true
  = monoData (snapshot_env ["apertium-xyz.xyz.dix"]) [package_xyz] ["xyz"]
      "turkic" false.
Proof.
  apply (monoData_audit_independent (snapshot_env ["apertium-xyz.xyz.dix"])).
  - intros file dir. by eexists.
  - by eexists.
Defined.
